(** * glTF 2.0 export controller: a shallow embedding of
      [io_scene_gltf2/blender/exp/gltf2_blender_export.py]

    The Python module sequences the export (frame handling, hooks, gathering,
    buffer finalisation, JSON clean-up, writing, the optional gltfpack run).
    Pure helpers become Rocq functions; code that can raise returns an
    [outcome]; code that touches Blender, the exporter object, the file
    system or a subprocess runs in a state-and-exception monad over an
    explicit host state. *)

From Stdlib Require Import List String Ascii Bool ZArith QArith Lia.
From Stdlib Require Import Floats.SpecFloat.
From Stdlib Require Import DecimalString.
From Stdlib Require Import Strings.Byte.
Import ListNotations.

Local Open Scope string_scope.
Local Open Scope Z_scope.
Local Open Scope list_scope.

(** ** Python exceptions *)

Module Py.

(** Exception classes that occur in the module, with user-defined
    subclasses ([Derived name base]). *)
Inductive exn_class : Type :=
| BaseException
| AssertionError
| ValueError
| OverflowError
| OSError
| CalledProcessError
| RuntimeError
| Derived (name : string) (base : exn_class).

Fixpoint class_eqb (c d : exn_class) : bool :=
  match c, d with
  | BaseException, BaseException => true
  | AssertionError, AssertionError => true
  | ValueError, ValueError => true
  | OverflowError, OverflowError => true
  | OSError, OSError => true
  | CalledProcessError, CalledProcessError => true
  | RuntimeError, RuntimeError => true
  | Derived n b, Derived m b' => String.eqb n m && class_eqb b b'
  | _, _ => false
  end.

(** [issubclass c cls]: [c] is [cls] or derives from it. *)
Fixpoint issubclass (c cls : exn_class) : bool :=
  class_eqb c cls ||
  match c with
  | Derived _ base => issubclass base cls
  | _ => false
  end.

Definition FileNotFoundError : exn_class := Derived "FileNotFoundError" OSError.

(** One entry of a traceback, as [traceback.extract_tb] yields it. *)
Record frame : Type := {
  tb_filename : string;
  tb_line : Z;
  tb_func : string;
  tb_text : string
}.

(** An exception object: its class, [str(e)] and the traceback that
    [sys.exc_info()] shows in a handler. *)
Record exn : Type := {
  exn_cls : exn_class;
  exn_str : string;
  exn_tb : list frame
}.

Definition isinstance (e : exn) (cls : exn_class) : bool :=
  issubclass (exn_cls e) cls.

(** The result of running a piece of Python. *)
Inductive outcome (A : Type) : Type :=
| Returns (a : A)
| Raises (e : exn).

Arguments Returns {A} a.
Arguments Raises {A} e.

Definition obind {A B} (o : outcome A) (k : A -> outcome B) : outcome B :=
  match o with
  | Returns a => k a
  | Raises e => Raises e
  end.

(** [str(n)] of a Python int. *)
Definition str_int (n : Z) : string := NilZero.string_of_int (Z.to_int n).

End Py.

Import Py.

(** ** Floats

    A Python float is a binary64 number; [spec_float] is the Standard
    Library's specification of IEEE 754 values. *)

Module PyFloat.

Definition is_finite (f : spec_float) : bool :=
  match f with
  | S754_zero _ | S754_finite _ _ _ => true
  | S754_infinity _ | S754_nan => false
  end.

(** A value a CPython float can hold. *)
Definition is_double (f : spec_float) : bool := valid_binary 53 1024 f.

Definition signed (s : bool) (n : Z) : Z := if s then - n else n.

(** [int(f)]: truncation toward zero; infinities and NaN raise. *)
Definition int_of_float (f : spec_float) : outcome Z :=
  match f with
  | S754_zero _ => Returns 0
  | S754_finite s m e =>
      Returns (signed s (if 0 <=? e then Z.pos m * 2 ^ e
                         else Z.pos m / 2 ^ (- e)))
  | S754_infinity _ =>
      Raises {| exn_cls := OverflowError;
                exn_str := "cannot convert float infinity to integer";
                exn_tb := [] |}
  | S754_nan =>
      Raises {| exn_cls := ValueError;
                exn_str := "cannot convert float NaN to integer";
                exn_tb := [] |}
  end.

(** [i == f] for an int [i] and a float [f]: Python compares the exact
    values. *)
Definition int_eq_float (i : Z) (f : spec_float) : bool :=
  match f with
  | S754_zero _ => i =? 0
  | S754_finite s m e =>
      if 0 <=? e then i =? signed s (Z.pos m * 2 ^ e)
      else i * 2 ^ (- e) =? signed s (Z.pos m)
  | S754_infinity _ | S754_nan => false
  end.

(** The rational number a finite float denotes. *)
Definition to_Q (f : spec_float) : Q :=
  match f with
  | S754_finite s m e =>
      if 0 <=? e then inject_Z (signed s (Z.pos m * 2 ^ e))
      else Qmake (signed s (Z.pos m)) (Z.to_pos (2 ^ (- e)))
  | _ => 0%Q
  end.

(** [f] is finite and its value is the integer [z]. *)
Definition integral (f : spec_float) (z : Z) : Prop :=
  is_finite f = true /\ Qeq (to_Q f) (inject_Z z).

End PyFloat.

Import PyFloat.

(** ** The document tree *)

(** What [glTF.to_dict()] returns: dicts (in insertion order), lists and
    scalars. *)
#[warnings="-register-all"]
Inductive json : Type :=
| JNull
| JBool (b : bool)
| JInt (z : Z)
| JFloat (f : spec_float)
| JStr (s : string)
| JList (l : list json)
| JDict (d : list (string * json)).

Definition dict : Type := list (string * json).

(** [d.get(key)]. *)
Fixpoint dict_get (d : dict) (key : string) : option json :=
  match d with
  | [] => None
  | (k, v) :: rest => if String.eqb k key then Some v else dict_get rest key
  end.

(** [d[key] = value]: an existing key keeps its place, a new key goes last. *)
Fixpoint dict_set (d : dict) (key : string) (value : json) : dict :=
  match d with
  | [] => [(key, value)]
  | (k, v) :: rest =>
      if String.eqb k key then (k, value) :: rest
      else (k, v) :: dict_set rest key value
  end.

Definition keys (d : dict) : list string := map fst d.

Definition is_none (value : json) : bool :=
  match value with JNull => true | _ => false end.

Definition __is_empty_collection (value : json) : bool :=
  match value with
  | JDict d => (Z.of_nat (List.length d) =? 0)
  | JList l => (Z.of_nat (List.length l) =? 0)
  | _ => false
  end.

Definition allowed_empty_collections : list string := ["KHR_materials_unlit"].

Definition str_in (key : string) (l : list string) : bool :=
  existsb (String.eqb key) l.

Definition __should_include_json_value (key : string) (value : json) : bool :=
  if is_none value then false
  else if __is_empty_collection value
          && negb (str_in key allowed_empty_collections) then false
  else true.

(** The [for key, value in obj.items()] loop of [__fix_json], with the
    recursive call abstracted. *)
Definition fix_dict_items (rec : json -> outcome json)
  : list (string * json) -> dict -> outcome dict :=
  fix loop (items : list (string * json)) (fixed : dict) : outcome dict :=
    match items with
    | [] => Returns fixed
    | (key, value) :: rest =>
        if String.eqb key "extras" && negb (is_none value) then
          loop rest (dict_set fixed key value)
        else if negb (__should_include_json_value key value) then
          loop rest fixed
        else
          match rec value with
          | Returns v => loop rest (dict_set fixed key v)
          | Raises e => Raises e
          end
    end.

(** The [for value in obj] loop of [__fix_json]. *)
Definition fix_list_items (rec : json -> outcome json)
  : list json -> list json -> outcome (list json) :=
  fix loop (items : list json) (fixed : list json) : outcome (list json) :=
    match items with
    | [] => Returns fixed
    | value :: rest =>
        match rec value with
        | Returns v => loop rest (fixed ++ [v])
        | Raises e => Raises e
        end
    end.

(** [__fix_json obj] is the outcome of the call when the recursion limit of
    the interpreter is not met on the way.  [__fix_json_limited] below is the
    same code under the limit; the two agree on every call that has frames
    enough, and a limited call that returns returns what this one does. *)
Fixpoint __fix_json (obj : json) : outcome json :=
  match obj with
  | JDict d =>
      obind (fix_dict_items __fix_json d []) (fun fixed => Returns (JDict fixed))
  | JList l =>
      obind (fix_list_items __fix_json l []) (fun fixed => Returns (JList fixed))
  | JFloat f =>
      obind (int_of_float f) (fun i =>
        if int_eq_float i f then Returns (JInt i) else Returns obj)
  | _ => Returns obj
  end.

(** ** The recursion limit

    Each call of a Python function takes a frame of the interpreter stack,
    and a call made when the limit of [sys.setrecursionlimit] allows no
    further frame raises [RecursionError].  The three functions below are the
    same code with [frames], the number of frames the interpreter still
    allows at the call.  The limit is taken as the language states it, a
    bound on the stack of Python frames: the builtins ([isinstance], [len],
    [int], the comparisons) take no frame. *)

Definition RecursionError : exn_class := Derived "RecursionError" RuntimeError.

Definition recursion_error : exn :=
  {| exn_cls := RecursionError;
     exn_str := "maximum recursion depth exceeded";
     exn_tb := [] |}.

Definition __is_empty_collection_limited (frames : nat) (value : json)
  : outcome bool :=
  match frames with
  | O => Raises recursion_error
  | S _ => Returns (__is_empty_collection value)
  end.

Definition __should_include_json_value_limited
    (frames : nat) (key : string) (value : json) : outcome bool :=
  match frames with
  | O => Raises recursion_error
  | S frames' =>
      if is_none value then Returns false
      else
        obind (__is_empty_collection_limited frames' value) (fun empty =>
          if empty && negb (str_in key allowed_empty_collections)
          then Returns false
          else Returns true)
  end.

(** The dict loop, with the two calls it makes abstracted. *)
Definition fix_dict_items_limited
    (include : string -> json -> outcome bool) (rec : json -> outcome json)
  : list (string * json) -> dict -> outcome dict :=
  fix loop (items : list (string * json)) (fixed : dict) : outcome dict :=
    match items with
    | [] => Returns fixed
    | (key, value) :: rest =>
        if String.eqb key "extras" && negb (is_none value) then
          loop rest (dict_set fixed key value)
        else
          match include key value with
          | Raises e => Raises e
          | Returns false => loop rest fixed
          | Returns true =>
              match rec value with
              | Returns v => loop rest (dict_set fixed key v)
              | Raises e => Raises e
              end
          end
    end.

Fixpoint __fix_json_limited (frames : nat) (obj : json) : outcome json :=
  match frames with
  | O => Raises recursion_error
  | S frames' =>
      match obj with
      | JDict d =>
          obind (fix_dict_items_limited
                   (__should_include_json_value_limited frames')
                   (__fix_json_limited frames') d [])
                (fun fixed => Returns (JDict fixed))
      | JList l =>
          obind (fix_list_items (__fix_json_limited frames') l [])
                (fun fixed => Returns (JList fixed))
      | JFloat f =>
          obind (int_of_float f) (fun i =>
            if int_eq_float i f then Returns (JInt i) else Returns obj)
      | _ => Returns obj
      end
  end.



(** ** Well-formed trees and paths *)

Fixpoint unique_keys (l : list string) : bool :=
  match l with
  | [] => true
  | k :: rest => negb (str_in k rest) && unique_keys rest
  end.

(** A tree a Python program can build: the keys of each dict are distinct. *)
Fixpoint wf_json (x : json) : bool :=
  match x with
  | JList l => forallb wf_json l
  | JDict d => unique_keys (keys d) && forallb (fun kv => wf_json (snd kv)) d
  | _ => true
  end.

(** A position in a tree: [x[k]] for a dict, [x[i]] for a list. *)
Inductive step : Type :=
| Key (k : string)
| Index (i : nat).

Definition path : Type := list step.

Fixpoint json_at (x : json) (p : path) : option json :=
  match p with
  | [] => Some x
  | Key k :: p' =>
      match x with
      | JDict d =>
          match dict_get d k with
          | Some v => json_at v p'
          | None => None
          end
      | _ => None
      end
  | Index i :: p' =>
      match x with
      | JList l =>
          match nth_error l i with
          | Some v => json_at v p'
          | None => None
          end
      | _ => None
      end
  end.

Definition is_extras_step (s : step) : bool :=
  match s with
  | Key k => String.eqb k "extras"
  | Index _ => false
  end.

(** The path enters no ['extras'] value. *)
Definition extras_free (p : path) : bool :=
  forallb (fun s => negb (is_extras_step s)) p.

Definition is_scalar (x : json) : bool :=
  match x with
  | JList _ | JDict _ => false
  | _ => true
  end.

Definition is_float (x : json) : bool :=
  match x with JFloat _ => true | _ => false end.

(** Every float of the tree is finite. *)
Definition all_floats_finite (x : json) : Prop :=
  forall p f, json_at x p = Some (JFloat f) -> is_finite f = true.

(** Sample values. *)
Definition five : spec_float := S754_finite false 5629499534213120 (-50).
Definition five_and_half : spec_float := S754_finite false 6192449487634432 (-50).

(** ** Vocabulary of the statements about the clean-up *)

(** The value at the end of the path is not an entry the dict loop skips
    (a [None] or a droppable empty collection under a dict key). *)
Fixpoint kept_at (p : path) (v : json) : bool :=
  match p with
  | [] => true
  | [Key k] => __should_include_json_value k v
  | _ :: p' => kept_at p' v
  end.

(** Sample trees. *)
Definition material_with_extras : json :=
  JDict [("name", JNull);
         ("extras", JDict [("note", JNull)]);
         ("pbr", JDict [("extras", JNull); ("factor", JInt 1)])].

Definition material_fixed : json :=
  JDict [("extras", JDict [("note", JNull)]);
         ("pbr", JDict [("factor", JInt 1)])].

Definition unlit_material : json :=
  JDict [("extensions", JDict []); ("KHR_materials_unlit", JDict [])].

Definition nan : spec_float := S754_nan.
Definition extras_with_five : json := JDict [("extras", JDict [("x", JFloat five)])].

Definition accessor : json :=
  JDict [("count", JFloat five); ("max", JList [JFloat five_and_half; JNull])].

Definition accessor_fixed : json :=
  JDict [("count", JInt 5); ("max", JList [JFloat five_and_half; JNull])].


(** A checker for [all_floats_finite]. *)
Fixpoint floats_finite (x : json) : bool :=
  match x with
  | JFloat f => is_finite f
  | JList l => forallb floats_finite l
  | JDict d => forallb (fun kv => floats_finite (snd kv)) d
  | _ => true
  end.

(** No empty dict or list is left under a key that a further pass would
    drop: outside ['extras'] values, every key with an empty value is on the
    allow-list. *)
Definition no_droppable_empty (y : json) : Prop :=
  forall p k v,
    extras_free (p ++ [Key k]) = true ->
    json_at y (p ++ [Key k]) = Some v ->
    __is_empty_collection v = true ->
    str_in k allowed_empty_collections = true.

(** The property the induction carries: a result without droppable empties
    is left alone by a further pass. *)
Definition settles (x : json) : Prop :=
  forall y, wf_json x = true -> __fix_json x = Returns y ->
            no_droppable_empty y -> __fix_json y = Returns y.

(** The result of the pass is again a well-formed tree. *)
Definition keeps_wf (x : json) : Prop :=
  forall y, wf_json x = true -> __fix_json x = Returns y -> wf_json y = true.

Definition nested_null : json := JDict [("a", JDict [("b", JNull)])].

(** ** Further vocabulary *)

(** The entry is one the dict loop keeps: its value is not [None], and it is
    the ['extras'] entry, or its value is not an empty collection, or its key
    is on the allow-list. *)
Definition survives (key : string) (value : json) : bool :=
  negb (is_none value)
  && (String.eqb key "extras"
      || negb (__is_empty_collection value)
      || str_in key allowed_empty_collections).

(** The number of nodes of a tree, a dict entry counting for its key too. *)
Fixpoint size (x : json) : nat :=
  match x with
  | JList l => S (list_sum (map size l))
  | JDict d => S (list_sum (map (fun kv => S (size (snd kv))) d))
  | _ => 1%nat
  end.

(** [n] passes of [__fix_json], one after the other. *)
Fixpoint fix_json_times (n : nat) (x : json) : outcome json :=
  match n with
  | O => Returns x
  | S n' => obind (__fix_json x) (fix_json_times n')
  end.

(** The flags that the scene loop of [__gather_gltf] hands to [add_scene]. *)
Definition active_flags {A} (active_scene_idx : Z) (scenes : list (nat * A)) : list bool :=
  map (fun '(idx, _) => Z.of_nat idx =? active_scene_idx) scenes.

(** The scenes that the scene loop of [__gather_gltf] hands to [add_scene],
    each with its flag. *)
Definition flagged {A} (active_scene_idx : Z) (scenes : list (nat * A)) : list (A * bool) :=
  map (fun '(idx, scene) => (scene, Z.of_nat idx =? active_scene_idx)) scenes.


(** 2^60, a double. *)
Definition two_pow_60 : spec_float := S754_finite false 4503599627370496 8.

Definition nested_nulls : json :=
  JDict [("a", JDict [("b", JDict [("c", JNull)])]); ("n", JFloat five)].

(** Every float that a pass would visit is already settled. *)
Definition floats_settled (y : json) : Prop :=
  forall p f, extras_free p = true -> json_at y p = Some (JFloat f) ->
              __fix_json (JFloat f) = Returns (JFloat f).

(** A pass over a tree with settled floats changes nothing or removes a node. *)
Definition shrinks (y : json) : Prop :=
  forall y', wf_json y = true -> floats_settled y ->
             __fix_json y = Returns y' ->
             y' = y \/ (size y' < size y)%nat.

(** ** Induction over trees *)

Section JsonInduction.

Variable P : json -> Prop.
Hypothesis HNull : P JNull.
Hypothesis HBool : forall b, P (JBool b).
Hypothesis HInt : forall z, P (JInt z).
Hypothesis HFloat : forall f, P (JFloat f).
Hypothesis HStr : forall s, P (JStr s).
Hypothesis HList : forall l, Forall P l -> P (JList l).
Hypothesis HDict : forall d, Forall (fun kv => P (snd kv)) d -> P (JDict d).

Fixpoint json_nested_ind (x : json) : P x :=
  match x with
  | JNull => HNull
  | JBool b => HBool b
  | JInt z => HInt z
  | JFloat f => HFloat f
  | JStr s => HStr s
  | JList l =>
      HList l ((fix all (l : list json) : Forall P l :=
                  match l with
                  | [] => Forall_nil P
                  | a :: r => Forall_cons a (json_nested_ind a) (all r)
                  end) l)
  | JDict d =>
      HDict d ((fix all (d : list (string * json))
                  : Forall (fun kv => P (snd kv)) d :=
                  match d with
                  | [] => Forall_nil _
                  | kv :: r =>
                      Forall_cons kv (json_nested_ind (snd kv)) (all r)
                  end) d)
  end.

End JsonInduction.

(** ** The host and the collaborators *)

Definition bytes : Type := list Byte.byte.

(** A value of the settings dict that is formatted into the command line. *)
Inductive pyvalue : Type :=
| PyInt (z : Z)
| PyFloat (f : spec_float)
| PyStr (s : string).

(** A registered callable, named by its position in the registry. *)
Definition callback : Type := nat.

(** The entries of [export_settings] that this module reads. *)
Record export_settings : Type := {
  gltf_current_frame : bool;
  gltf_format : string;
  gltf_filedirectory : string;
  gltf_binaryfilename : string;
  gltf_filepath : string;
  gltf_draco_mesh_compression : bool;
  gltf_use_gltfpack : bool;
  gltf_gltfpack_tc : bool;
  gltf_gltfpack_tq : pyvalue;
  gltf_gltfpack_si : pyvalue;
  gltf_gltfpack_sa : bool;
  gltf_gltfpack_slb : bool;
  gltf_gltfpack_vp : pyvalue;
  gltf_gltfpack_vt : pyvalue;
  gltf_gltfpack_vn : pyvalue;
  gltf_gltfpack_vc : pyvalue;
  gltf_gltfpack_vpi : string;
  gltf_gltfpack_noq : bool;
  pre_export_callbacks : list callback;
  post_export_callbacks : list callback
}.

(** What the module prints or reports to the window manager. *)
Inductive event : Type :=
| PrintConsole (level msg : string)
| PrintNewline
| PrintTb (tb : list frame)
| ProgressBegin (lo hi : Z)
| ProgressUpdate (value : Z)
| ProgressEnd.

(** What [subprocess.run] sees of the child process. *)
Inductive spawn_result : Type :=
| Exited (returncode : Z)
| LaunchFailed (e : exn).

(** Arguments handed to [export_user_extensions] after the settings. *)
Inductive hook_args (Obj : Type) : Type :=
| GatherArgs (active_scene_idx : Z) (scenes animations : list Obj)
| GltfArgs (gltf : Obj).

Arguments GatherArgs {Obj} active_scene_idx scenes animations.
Arguments GltfArgs {Obj} gltf.

Section Host.

(** [World] is everything the collaborators keep to themselves (the scene,
    the exporter's buffers, the file system); [Obj] is a reference to a
    Python object. *)
Variable World : Type.
Variable Obj : Type.

(** The state the module reads and writes.  [export_settings] is one dict
    shared with every callback and collaborator, so it lives here. *)
Record host : Type := {
  active_object_mode : option string;
  frame_current : Z;
  gltfpack_path_ui : string;
  settings : export_settings;
  console : list event;
  world : World
}.

(** A piece of Python run against the host: the new state and how it ended. *)
Definition M (A : Type) : Type := host -> host * outcome A.

Definition ret {A} (a : A) : M A := fun st => (st, Returns a).

Definition raise {A} (e : exn) : M A := fun st => (st, Raises e).

Definition bind {A B} (m : M A) (k : A -> M B) : M B :=
  fun st =>
    match m st with
    | (st', Returns a) => k a st'
    | (st', Raises e) => (st', Raises e)
    end.

Definition lift {A} (o : outcome A) : M A := fun st => (st, o).

Definition get {A} (field : host -> A) : M A := fun st => (st, Returns (field st)).

(** [export_settings[key]]. *)
Definition read {A} (key : export_settings -> A) : M A :=
  fun st => (st, Returns (key (settings st))).

(** [try: m except cls as e: handler e]. *)
Definition try_except {A} (m : M A) (cls : exn_class) (handler : exn -> M A) : M A :=
  fun st =>
    match m st with
    | (st', Returns a) => (st', Returns a)
    | (st', Raises e) =>
        if isinstance e cls then handler e st' else (st', Raises e)
    end.

Definition emit (ev : event) : M unit :=
  fun st =>
    ({| active_object_mode := active_object_mode st;
        frame_current := frame_current st;
        gltfpack_path_ui := gltfpack_path_ui st;
        settings := settings st;
        console := console st ++ [ev];
        world := world st |}, Returns tt).

(** [bpy.context.scene.frame_set(frame)]. *)
Definition frame_set (frame : Z) : M unit :=
  fun st =>
    ({| active_object_mode := active_object_mode st;
        frame_current := frame;
        gltfpack_path_ui := gltfpack_path_ui st;
        settings := settings st;
        console := console st;
        world := world st |}, Returns tt).

Definition print_console (level msg : string) : M unit := emit (PrintConsole level msg).
Definition print_newline : M unit := emit PrintNewline.
Definition print_tb (tb : list frame) : M unit := emit (PrintTb tb).
Definition progress_begin (lo hi : Z) : M unit := emit (ProgressBegin lo hi).
Definition progress_update (value : Z) : M unit := emit (ProgressUpdate value).
Definition progress_end : M unit := emit ProgressEnd.

(** Everything the module calls and does not define: Blender operators, the
    gatherer, the exporter object, the Draco encoder, the user-extension
    hooks, the writer, [os], [os.path], [subprocess], [time] and the float
    builtins. *)
Record collaborators : Type := {
  mode_set : string -> M unit;
  time_time : M spec_float;
  float_sub : spec_float -> spec_float -> spec_float;
  repr_float : spec_float -> string;
  call : callback -> M unit;
  new_exporter : M Obj;
  gather_gltf2 : M (Z * list Obj * list Obj);
  get_unused_skins : M Obj;
  encode_scene_primitives : list Obj -> M unit;
  add_draco_extension : Obj -> M unit;
  export_user_extensions : string -> hook_args Obj -> M unit;
  add_scene : Obj -> Obj -> bool -> M unit;
  add_animation : Obj -> Obj -> M unit;
  traverse_unused_skins : Obj -> Obj -> M unit;
  finalize_buffer : Obj -> string -> option string -> bool -> M bytes;
  finalize_images : Obj -> M unit;
  traverse_extensions : Obj -> M unit;
  exporter_glTF : Obj -> M Obj;
  to_dict : Obj -> M json;
  save_gltf : json -> bytes -> M unit;
  path_join : string -> string -> string;
  path_basename : string -> string;
  path_dirname : string -> string;
  path_splitext : string -> string * string;
  path_exists : string -> M bool;
  makedirs : string -> M unit;
  spawn : list string -> host -> host * spawn_result
}.

End Host.

Arguments active_object_mode {World} _.
Arguments frame_current {World} _.
Arguments gltfpack_path_ui {World} _.
Arguments settings {World} _.
Arguments console {World} _.
Arguments world {World} _.
Arguments ret {World A} a _.
Arguments raise {World A} e _.
Arguments bind {World A B} m k _.
Arguments lift {World A} o _.
Arguments get {World A} field _.
Arguments read {World A} key _.
Arguments try_except {World A} m cls handler _.
Arguments emit {World} ev _.
Arguments frame_set {World} frame _.
Arguments print_console {World} level msg _.
Arguments print_newline {World} _.
Arguments print_tb {World} tb _.
Arguments progress_begin {World} lo hi _.
Arguments progress_update {World} value _.
Arguments progress_end {World} _.

Declare Scope py_scope.
Delimit Scope py_scope with py.

Notation "x <- m ;; k" := (bind m (fun x => k))
  (at level 61, m at next level, right associativity) : py_scope.
Notation "' pat <- m ;; k" := (bind m (fun x => match x with pat => k end))
  (at level 61, pat pattern, m at next level, right associativity) : py_scope.
Notation "m ;; k" := (bind m (fun _ => k))
  (at level 61, right associativity) : py_scope.

Arguments mode_set {World Obj} c.
Arguments time_time {World Obj} c.
Arguments float_sub {World Obj} c.
Arguments repr_float {World Obj} c.
Arguments call {World Obj} c.
Arguments new_exporter {World Obj} c.
Arguments gather_gltf2 {World Obj} c.
Arguments get_unused_skins {World Obj} c.
Arguments encode_scene_primitives {World Obj} c.
Arguments add_draco_extension {World Obj} c.
Arguments export_user_extensions {World Obj} c.
Arguments add_scene {World Obj} c.
Arguments add_animation {World Obj} c.
Arguments traverse_unused_skins {World Obj} c.
Arguments finalize_buffer {World Obj} c.
Arguments finalize_images {World Obj} c.
Arguments traverse_extensions {World Obj} c.
Arguments exporter_glTF {World Obj} c.
Arguments to_dict {World Obj} c.
Arguments save_gltf {World Obj} c.
Arguments path_join {World Obj} c.
Arguments path_basename {World Obj} c.
Arguments path_dirname {World Obj} c.
Arguments path_splitext {World Obj} c.
Arguments path_exists {World Obj} c.
Arguments makedirs {World Obj} c.
Arguments spawn {World Obj} c.

(** ** The export controller *)

Section Controller.

Variable World : Type.
Variable Obj : Type.
Variable ext : collaborators World Obj.

Local Open Scope py_scope.

(** [for x in items: body x]. *)
Fixpoint for_each {A} (items : list A) (body : A -> M World unit) : M World unit :=
  match items with
  | [] => ret tt
  | x :: rest => body x ;; for_each rest body
  end.

(** [enumerate(items)]. *)
Fixpoint enumerate_from {A} (start : nat) (items : list A) : list (nat * A) :=
  match items with
  | [] => []
  | x :: rest => (start, x) :: enumerate_from (S start) rest
  end.

Definition enumerate {A} (items : list A) : list (nat * A) := enumerate_from 0 items.

(** [f"{value}"]. *)
Definition format_value (value : pyvalue) : string :=
  match value with
  | PyInt z => str_int z
  | PyFloat f => repr_float ext f
  | PyStr s => s
  end.

Definition __notify_start : M World unit :=
  print_console "INFO" "Starting glTF 2.0 export" ;;
  progress_begin 0 100 ;;
  progress_update 0.

Definition __notify_end (elapsed : spec_float) : M World unit :=
  print_console "INFO"
    ("Finished glTF 2.0 export in " ++ repr_float ext elapsed ++ " s") ;;
  progress_end ;;
  print_newline.

Definition __gather_gltf (exporter : Obj) : M World unit :=
  '(active_scene_idx, scenes, animations) <- gather_gltf2 ext ;;
  unused_skins <- get_unused_skins ext ;;
  draco <- read gltf_draco_mesh_compression ;;
  (if draco : bool then
     encode_scene_primitives ext scenes ;;
     add_draco_extension ext exporter
   else ret tt) ;;
  export_user_extensions ext "gather_gltf_hook"
    (GatherArgs active_scene_idx scenes animations) ;;
  for_each (enumerate scenes) (fun '(idx, scene) =>
    add_scene ext exporter scene (Z.of_nat idx =? active_scene_idx)) ;;
  for_each animations (fun animation => add_animation ext exporter animation) ;;
  traverse_unused_skins ext exporter unused_skins.

Definition __create_buffer (exporter : Obj) : M World bytes :=
  let buffer : bytes := [] in
  format <- read gltf_format ;;
  if String.eqb format "GLB" then
    directory <- read gltf_filedirectory ;;
    buffer <- finalize_buffer ext exporter directory None true ;;
    ret buffer
  else
    format <- read gltf_format ;;
    if String.eqb format "GLTF_EMBEDDED" then
      directory <- read gltf_filedirectory ;;
      finalize_buffer ext exporter directory None false ;;
      ret buffer
    else
      directory <- read gltf_filedirectory ;;
      binaryfilename <- read gltf_binaryfilename ;;
      finalize_buffer ext exporter directory (Some binaryfilename) false ;;
      ret buffer.

Definition __export : M World (json * bytes) :=
  exporter <- new_exporter ext ;;
  __gather_gltf exporter ;;
  buffer <- __create_buffer exporter ;;
  finalize_images ext exporter ;;
  gltf <- exporter_glTF ext exporter ;;
  export_user_extensions ext "gather_gltf_extensions_hook" (GltfArgs gltf) ;;
  traverse_extensions ext exporter ;;
  gltf <- exporter_glTF ext exporter ;;
  raw <- to_dict ext gltf ;;
  json <- lift (__fix_json raw) ;;
  ret (json, buffer).

(** [options.append(x)]. *)
Definition append (options : list string) (x : string) : list string :=
  options ++ [x].

(** Lines 162-197: the option list, built by successive appends. *)
Definition gltfpack_options (s : export_settings) : list string :=
  let options := [] in
  let options := if gltf_gltfpack_tc s then append options "-tc" else options in
  let options := append options "-tq" in
  let options := append options (format_value (gltf_gltfpack_tq s)) in
  let options := append options "-si" in
  let options := append options (format_value (gltf_gltfpack_si s)) in
  let options := if gltf_gltfpack_sa s then append options "-sa" else options in
  let options := if gltf_gltfpack_slb s then append options "-slb" else options in
  let options := append options "-vp" in
  let options := append options (format_value (gltf_gltfpack_vp s)) in
  let options := append options "-vt" in
  let options := append options (format_value (gltf_gltfpack_vt s)) in
  let options := append options "-vn" in
  let options := append options (format_value (gltf_gltfpack_vn s)) in
  let options := append options "-vc" in
  let options := append options (format_value (gltf_gltfpack_vc s)) in
  let options :=
    if String.eqb (gltf_gltfpack_vpi s) "Integer" then append options "-vpi"
    else if String.eqb (gltf_gltfpack_vpi s) "Normalized" then append options "-vpn"
    else if String.eqb (gltf_gltfpack_vpi s) "Floating-point" then append options "-vpf"
    else options in
  let options := if gltf_gltfpack_noq s then append options "-noq" else options in
  options.

(** [subprocess.run(argv, check=True)]: a launch failure raises the
    [OSError] of the launch, a non-zero exit status raises
    [CalledProcessError]. *)
Definition subprocess_run_check (argv : list string) : M World unit :=
  fun st =>
    match spawn ext argv st with
    | (st', Exited returncode) =>
        if returncode =? 0 then (st', Returns tt)
        else (st', Raises {| exn_cls := CalledProcessError;
                             exn_str := "Command returned non-zero exit status "
                                        ++ str_int returncode;
                             exn_tb := [] |})
    | (st', LaunchFailed e) => (st', Raises e)
    end.

(** Lines 156-157: create the output directory when it is missing. *)
Definition gltfpack_makedirs (gltf_output_file_directory : string) : M World unit :=
  found <- path_exists ext gltf_output_file_directory ;;
  if negb found then makedirs ext gltf_output_file_directory else ret tt.

(** Lines 205-208: run the tool; a non-zero exit is logged. *)
Definition gltfpack_run (argv : list string) : M World unit :=
  try_except (subprocess_run_check argv) CalledProcessError (fun e =>
    print_console "ERROR" "Calling gltfpack was not successful").

Definition __postprocess_with_gltfpack : M World unit :=
  gltfpack_path <- get gltfpack_path_ui ;;
  let gltfpack_binary_file_path := path_join ext gltfpack_path "gltfpack" in
  gltf_file_path <- read gltf_filepath ;;
  let gltf_file_base := fst (path_splitext ext (path_basename ext gltf_file_path)) in
  let gltf_file_extension := snd (path_splitext ext (path_basename ext gltf_file_path)) in
  let gltf_file_directory := path_dirname ext gltf_file_path in
  let gltf_output_file_directory := path_join ext gltf_file_directory "gltfpacked" in
  gltfpack_makedirs gltf_output_file_directory ;;
  let gltf_input_file_path := gltf_file_path in
  let gltf_output_file_path :=
    path_join ext gltf_output_file_directory (gltf_file_base ++ gltf_file_extension) in
  options <- read gltfpack_options ;;
  let parameters := ["-i"; gltf_input_file_path; "-o"; gltf_output_file_path] in
  gltfpack_run ([gltfpack_binary_file_path] ++ options ++ parameters).

(** Lines 212-218: the body of the [try] in [__write_file]. *)
Definition write_attempt (json : json) (buffer : bytes) : M World unit :=
  save_gltf ext json buffer ;;
  use_gltfpack <- read gltf_use_gltfpack ;;
  if use_gltfpack : bool then __postprocess_with_gltfpack else ret tt.

(** Lines 221-228: the handler of [AssertionError]. *)
Definition report_assertion (e : exn) : M World unit :=
  let tb := exn_tb e in
  print_tb tb ;;
  let tb_info := tb in
  for_each tb_info (fun tbi =>
    print_console "ERROR"
      ("An error occurred on line " ++ str_int (tb_line tbi)
       ++ " in statement " ++ tb_text tbi)) ;;
  print_console "ERROR" (exn_str e) ;;
  raise e.

Definition __write_file (json : json) (buffer : bytes) : M World unit :=
  try_except (write_attempt json buffer) AssertionError report_assertion.

(** Lines 34-36: leave edit or pose mode. *)
Definition ensure_object_mode : M World unit :=
  mode <- get active_object_mode ;;
  match mode with
  | Some m => if negb (String.eqb m "OBJECT") then mode_set ext "OBJECT" else ret tt
  | None => ret tt
  end.

(** [frame_current] is an int, so [int(original_frame)] is [original_frame]. *)
Definition save : M World (list string) :=
  ensure_object_mode ;;
  original_frame <- get frame_current ;;
  current <- read gltf_current_frame ;;
  (if negb current then frame_set 0 else ret tt) ;;
  __notify_start ;;
  start_time <- time_time ext ;;
  pre_export_callbacks <- read pre_export_callbacks ;;
  for_each pre_export_callbacks (fun callback => call ext callback) ;;
  '(json, buffer) <- __export ;;
  post_export_callbacks <- read post_export_callbacks ;;
  for_each post_export_callbacks (fun callback => call ext callback) ;;
  __write_file json buffer ;;
  end_time <- time_time ext ;;
  __notify_end (float_sub ext end_time start_time) ;;
  current <- read gltf_current_frame ;;
  (if negb current then frame_set original_frame else ret tt) ;;
  ret ["FINISHED"].

End Controller.

(** ** Vocabulary of the statements *)

Section Vocabulary.

Variable World : Type.
Variable Obj : Type.

(** The host after further console output. *)
Definition with_console (st : host World) (evs : list event) : host World :=
  {| active_object_mode := active_object_mode st;
     frame_current := frame_current st;
     gltfpack_path_ui := gltfpack_path_ui st;
     settings := settings st;
     console := console st ++ evs;
     world := world st |}.

(** The verbose report of an exception: the traceback, one line per frame
    with its line number and statement, and the message. *)
Definition diagnostics (e : exn) : list event :=
  [PrintTb (exn_tb e)]
  ++ map (fun tbi =>
            PrintConsole "ERROR"
              ("An error occurred on line " ++ str_int (tb_line tbi)
               ++ " in statement " ++ tb_text tbi)) (exn_tb e)
  ++ [PrintConsole "ERROR" (exn_str e)].

(** A flag that is present exactly when its option is set. *)
Definition flag_if (b : bool) (flag : string) : list string :=
  if b then [flag] else [].

(** The computation leaves the timeline where it was. *)
Definition frame_stable {A} (m : M World A) : Prop :=
  forall st, frame_current (fst (m st)) = frame_current st.

(** No collaborator moves the timeline. *)
Record timeline_untouched (ext : collaborators World Obj) : Prop := {
  tu_mode_set : forall m, frame_stable (mode_set ext m);
  tu_time_time : frame_stable (time_time ext);
  tu_call : forall c, frame_stable (call ext c);
  tu_new_exporter : frame_stable (new_exporter ext);
  tu_gather_gltf2 : frame_stable (gather_gltf2 ext);
  tu_get_unused_skins : frame_stable (get_unused_skins ext);
  tu_encode_scene_primitives : forall s, frame_stable (encode_scene_primitives ext s);
  tu_add_draco_extension : forall x, frame_stable (add_draco_extension ext x);
  tu_export_user_extensions : forall h a, frame_stable (export_user_extensions ext h a);
  tu_add_scene : forall x s b, frame_stable (add_scene ext x s b);
  tu_add_animation : forall x a, frame_stable (add_animation ext x a);
  tu_traverse_unused_skins : forall x s, frame_stable (traverse_unused_skins ext x s);
  tu_finalize_buffer : forall x d n g, frame_stable (finalize_buffer ext x d n g);
  tu_finalize_images : forall x, frame_stable (finalize_images ext x);
  tu_traverse_extensions : forall x, frame_stable (traverse_extensions ext x);
  tu_exporter_glTF : forall x, frame_stable (exporter_glTF ext x);
  tu_to_dict : forall g, frame_stable (to_dict ext g);
  tu_save_gltf : forall j b, frame_stable (save_gltf ext j b);
  tu_path_exists : forall d, frame_stable (path_exists ext d);
  tu_makedirs : forall d, frame_stable (makedirs ext d);
  tu_spawn : forall argv st, frame_current (fst (spawn ext argv st)) = frame_current st
}.

(** [added st] is the list of the scenes the exporter holds in [st], each
    with its active flag: [add_scene] appends to it, and the other steps that
    [__gather_gltf] takes after the gatherer leave it alone. *)
Record scene_log (ext : collaborators World Obj)
    (added : host World -> list (Obj * bool)) : Prop := {
  sl_add_scene : forall x scene flag st st',
    add_scene ext x scene flag st = (st', Returns tt) ->
    added st' = added st ++ [(scene, flag)];
  sl_get_unused_skins : forall st st' skins,
    get_unused_skins ext st = (st', Returns skins) -> added st' = added st;
  sl_encode_scene_primitives : forall scenes st st',
    encode_scene_primitives ext scenes st = (st', Returns tt) -> added st' = added st;
  sl_add_draco_extension : forall x st st',
    add_draco_extension ext x st = (st', Returns tt) -> added st' = added st;
  sl_export_user_extensions : forall h a st st',
    export_user_extensions ext h a st = (st', Returns tt) -> added st' = added st;
  sl_add_animation : forall x a st st',
    add_animation ext x a st = (st', Returns tt) -> added st' = added st;
  sl_traverse_unused_skins : forall x skins st st',
    traverse_unused_skins ext x skins st = (st', Returns tt) -> added st' = added st
}.

End Vocabulary.

Arguments with_console {World} st evs.
Arguments frame_stable {World A} m.
Arguments timeline_untouched {World Obj} ext.
Arguments scene_log {World Obj} ext added.

(** ** A sample host *)

Module Sample.

Definition one_point_five : spec_float := S754_finite false 6755399441055744 (-52).

(** Split a string at the last occurrence of a character. *)
Fixpoint split_last (c : ascii) (s : string) : option (string * string) :=
  match s with
  | EmptyString => None
  | String a rest =>
      match split_last c rest with
      | Some (before, after) => Some (String a before, after)
      | None => if Ascii.eqb a c then Some (EmptyString, rest) else None
      end
  end.

Definition basename (p : string) : string :=
  match split_last "/" p with Some (_, name) => name | None => p end.

Definition dirname (p : string) : string :=
  match split_last "/" p with Some (dir, _) => dir | None => "" end.

Definition splitext (p : string) : string * string :=
  match split_last "." p with
  | Some (root, e) => (root, String "." e)
  | None => (p, "")
  end.

(** [repr] of the two floats the sample uses. *)
Definition repr (f : spec_float) : string :=
  match f with
  | S754_finite false 6755399441055744 (-52) => "1.5"
  | _ => "0.0"
  end.

Definition document : json :=
  JDict [("asset", JDict [("version", JStr "2.0"); ("extras", JNull)]);
         ("scene", JFloat (S754_zero false));
         ("samplers", JList [])].

(** Collaborators that do nothing, except the three given ones. *)
Definition collaborators_with
    (hook : callback -> M unit unit)
    (write : json -> bytes -> M unit unit)
    (launch : list string -> host unit -> host unit * spawn_result)
  : collaborators unit nat :=
  {| mode_set := fun _ st =>
       ({| active_object_mode := Some "OBJECT";
           frame_current := frame_current st;
           gltfpack_path_ui := gltfpack_path_ui st;
           settings := settings st;
           console := console st;
           world := world st |}, Returns tt);
     time_time := ret (S754_zero false);
     float_sub := fun a _ => a;
     repr_float := repr;
     call := hook;
     new_exporter := ret 0%nat;
     gather_gltf2 := ret (0, [1%nat], [2%nat]);
     get_unused_skins := ret 3%nat;
     encode_scene_primitives := fun _ => ret tt;
     add_draco_extension := fun _ => ret tt;
     export_user_extensions := fun _ _ => ret tt;
     add_scene := fun _ _ _ => ret tt;
     add_animation := fun _ _ => ret tt;
     traverse_unused_skins := fun _ _ => ret tt;
     finalize_buffer := fun _ _ _ is_glb =>
       ret (if is_glb then [x67; x6c; x54; x46] else []);
     finalize_images := fun _ => ret tt;
     traverse_extensions := fun _ => ret tt;
     exporter_glTF := fun _ => ret 4%nat;
     to_dict := fun _ => ret document;
     save_gltf := write;
     path_join := fun a b => (a ++ "/" ++ b)%string;
     path_basename := basename;
     path_dirname := dirname;
     path_splitext := splitext;
     path_exists := fun _ => ret true;
     makedirs := fun _ => ret tt;
     spawn := launch |}.

Definition no_hook : callback -> M unit unit := fun _ => ret tt.
Definition write_ok : json -> bytes -> M unit unit := fun _ _ => ret tt.

Definition disk_full : exn :=
  {| exn_cls := OSError; exn_str := "No space left on device"; exn_tb := [] |}.

Definition write_fails : json -> bytes -> M unit unit := fun _ _ => raise disk_full.

Definition malformed : exn :=
  {| exn_cls := AssertionError;
     exn_str := "buffer view out of range";
     exn_tb := [ {| tb_filename := "gltf2_io_export.py"; tb_line := 41;
                    tb_func := "save_gltf"; tb_text := "assert offset <= length" |} ] |}.

Definition write_asserts : json -> bytes -> M unit unit := fun _ _ => raise malformed.

Definition tool_missing : exn :=
  {| exn_cls := FileNotFoundError;
     exn_str := "[Errno 2] No such file or directory: '/opt/gltfpack/gltfpack'";
     exn_tb := [] |}.

Definition launch_exits (returncode : Z)
  : list string -> host unit -> host unit * spawn_result :=
  fun _ st => (st, Exited returncode).

Definition launch_fails : list string -> host unit -> host unit * spawn_result :=
  fun _ st => (st, LaunchFailed tool_missing).

(** A tool that is found under one command line only, and exits there with
    the given status. *)
Definition launch_only (expected : list string) (returncode : Z)
  : list string -> host unit -> host unit * spawn_result :=
  fun argv st =>
    if list_eq_dec string_dec argv expected then (st, Exited returncode)
    else (st, LaunchFailed tool_missing).

Definition settings_with (current_frame use_gltfpack : bool) (format : string)
  : export_settings :=
  {| gltf_current_frame := current_frame;
     gltf_format := format;
     gltf_filedirectory := "/tmp/out";
     gltf_binaryfilename := "scene.bin";
     gltf_filepath := "/tmp/out/scene.glb";
     gltf_draco_mesh_compression := false;
     gltf_use_gltfpack := use_gltfpack;
     gltf_gltfpack_tc := true;
     gltf_gltfpack_tq := PyInt 8;
     gltf_gltfpack_si := PyFloat one_point_five;
     gltf_gltfpack_sa := false;
     gltf_gltfpack_slb := true;
     gltf_gltfpack_vp := PyInt 14;
     gltf_gltfpack_vt := PyInt 12;
     gltf_gltfpack_vn := PyInt 8;
     gltf_gltfpack_vc := PyInt 8;
     gltf_gltfpack_vpi := "Normalized";
     gltf_gltfpack_noq := false;
     pre_export_callbacks := [0%nat];
     post_export_callbacks := [1%nat] |}.

Definition host_with (s : export_settings) : host unit :=
  {| active_object_mode := Some "EDIT";
     frame_current := 7;
     gltfpack_path_ui := "/opt/gltfpack";
     settings := s;
     console := [];
     world := tt |}.

(** Settings whose position-encoding entry is not one of the three names. *)
Definition settings_unknown_position : export_settings :=
  {| gltf_current_frame := true;
     gltf_format := "GLTF_SEPARATE";
     gltf_filedirectory := "/tmp/out";
     gltf_binaryfilename := "scene.bin";
     gltf_filepath := "/tmp/out/scene.gltf";
     gltf_draco_mesh_compression := false;
     gltf_use_gltfpack := true;
     gltf_gltfpack_tc := false;
     gltf_gltfpack_tq := PyInt 8;
     gltf_gltfpack_si := PyFloat one_point_five;
     gltf_gltfpack_sa := false;
     gltf_gltfpack_slb := false;
     gltf_gltfpack_vp := PyInt 14;
     gltf_gltfpack_vt := PyInt 12;
     gltf_gltfpack_vn := PyInt 8;
     gltf_gltfpack_vc := PyInt 8;
     gltf_gltfpack_vpi := "";
     gltf_gltfpack_noq := true;
     pre_export_callbacks := [];
     post_export_callbacks := [] |}.

Definition read_only : exn :=
  {| exn_cls := Derived "PermissionError" OSError;
     exn_str := "[Errno 13] Permission denied: '/tmp/out/gltfpacked'";
     exn_tb := [] |}.

(** A host whose output directory is missing and cannot be created. *)
Definition collaborators_read_only : collaborators unit nat :=
  let base := collaborators_with no_hook write_ok (launch_exits 0) in
  {| mode_set := mode_set base;
     time_time := time_time base;
     float_sub := float_sub base;
     repr_float := repr_float base;
     call := call base;
     new_exporter := new_exporter base;
     gather_gltf2 := gather_gltf2 base;
     get_unused_skins := get_unused_skins base;
     encode_scene_primitives := encode_scene_primitives base;
     add_draco_extension := add_draco_extension base;
     export_user_extensions := export_user_extensions base;
     add_scene := add_scene base;
     add_animation := add_animation base;
     traverse_unused_skins := traverse_unused_skins base;
     finalize_buffer := finalize_buffer base;
     finalize_images := finalize_images base;
     traverse_extensions := traverse_extensions base;
     exporter_glTF := exporter_glTF base;
     to_dict := to_dict base;
     save_gltf := save_gltf base;
     path_join := path_join base;
     path_basename := path_basename base;
     path_dirname := path_dirname base;
     path_splitext := path_splitext base;
     path_exists := fun _ => ret false;
     makedirs := fun _ => raise read_only;
     spawn := spawn base |}.

(** An exporter that keeps the scenes it is given, with their flags, in the
    world; the gatherer finds three scenes, the second one active. *)
Definition recording : collaborators (list (nat * bool)) nat :=
  {| mode_set := fun _ => ret tt;
     time_time := ret (S754_zero false);
     float_sub := fun a _ => a;
     repr_float := repr;
     call := fun _ => ret tt;
     new_exporter := ret 0%nat;
     gather_gltf2 := ret (1, [10%nat; 11%nat; 12%nat], [20%nat]);
     get_unused_skins := ret 3%nat;
     encode_scene_primitives := fun _ => ret tt;
     add_draco_extension := fun _ => ret tt;
     export_user_extensions := fun _ _ => ret tt;
     add_scene := fun _ scene active st =>
       ({| active_object_mode := active_object_mode st;
           frame_current := frame_current st;
           gltfpack_path_ui := gltfpack_path_ui st;
           settings := settings st;
           console := console st;
           world := world st ++ [(scene, active)] |}, Returns tt);
     add_animation := fun _ _ => ret tt;
     traverse_unused_skins := fun _ _ => ret tt;
     finalize_buffer := fun _ _ _ _ => ret [];
     finalize_images := fun _ => ret tt;
     traverse_extensions := fun _ => ret tt;
     exporter_glTF := fun _ => ret 4%nat;
     to_dict := fun _ => ret document;
     save_gltf := fun _ _ => ret tt;
     path_join := fun a b => (a ++ "/" ++ b)%string;
     path_basename := basename;
     path_dirname := dirname;
     path_splitext := splitext;
     path_exists := fun _ => ret true;
     makedirs := fun _ => ret tt;
     spawn := fun _ st => (st, Exited 0) |}.

Definition recording_host : host (list (nat * bool)) :=
  {| active_object_mode := Some "OBJECT";
     frame_current := 7;
     gltfpack_path_ui := "/opt/gltfpack";
     settings := settings_with true false "GLB";
     console := [];
     world := [] |}.

End Sample.

(** * Properties of the JSON clean-up *)

Example fix_five : __fix_json (JFloat five) = Returns (JInt 5).
Proof. reflexivity. Qed.

Example fix_five_and_half :
  __fix_json (JFloat five_and_half) = Returns (JFloat five_and_half).
Proof. reflexivity. Qed.

Example doubles :
  is_double five = true /\ is_double five_and_half = true
  /\ is_double Sample.one_point_five = true.
Proof. repeat split. Qed.

(** ** Dict and list bookkeeping *)

Lemma str_in_app k l1 l2 : str_in k (l1 ++ l2) = str_in k l1 || str_in k l2.
Proof. unfold str_in. apply existsb_app. Qed.

Lemma keys_app (d1 d2 : dict) : keys (d1 ++ d2) = keys d1 ++ keys d2.
Proof. unfold keys. apply map_app. Qed.

Lemma dict_set_fresh d k v :
  str_in k (keys d) = false -> dict_set d k v = d ++ [(k, v)].
Proof.
  induction d as [|[k0 v0] d IH]; simpl; intros H; [reflexivity|].
  apply orb_false_iff in H. destruct H as [Hk Hd].
  rewrite String.eqb_sym, Hk. now rewrite IH.
Qed.

Lemma dict_get_in_keys d k v : dict_get d k = Some v -> str_in k (keys d) = true.
Proof.
  induction d as [|[k0 v0] d IH]; simpl; [discriminate|].
  rewrite (String.eqb_sym k k0).
  destruct (String.eqb k0 k); simpl; auto.
Qed.

Lemma dict_get_not_in_keys d k : str_in k (keys d) = false -> dict_get d k = None.
Proof.
  intros H. destruct (dict_get d k) eqn:E; [|reflexivity].
  apply dict_get_in_keys in E. congruence.
Qed.

Lemma bind_returns {A B} (o : outcome A) (k : A -> outcome B) b :
  obind o k = Returns b -> exists a, o = Returns a /\ k a = Returns b.
Proof. destruct o; simpl; [eauto | discriminate]. Qed.

(** ** The two loops, one item at a time *)

Section Loops.

Variable rec : json -> outcome json.

Lemma fix_list_items_acc items acc :
  fix_list_items rec items acc =
  obind (fix_list_items rec items []) (fun r => Returns (acc ++ r)).
Proof.
  revert acc. induction items as [|a items IH]; intros acc; simpl.
  - now rewrite app_nil_r.
  - destruct (rec a) as [v|e]; simpl; [|reflexivity].
    rewrite (IH (acc ++ [v])), (IH [v]).
    destruct (fix_list_items rec items []); simpl; [|reflexivity].
    now rewrite <- app_assoc.
Qed.

Lemma fix_list_items_cons a items :
  fix_list_items rec (a :: items) [] =
  obind (rec a) (fun v =>
    obind (fix_list_items rec items []) (fun r => Returns (v :: r))).
Proof.
  simpl. destruct (rec a) as [v|e]; simpl; [|reflexivity].
  now rewrite fix_list_items_acc.
Qed.

Lemma fix_dict_items_acc items acc :
  unique_keys (keys items) = true ->
  (forall k, str_in k (keys items) = true -> str_in k (keys acc) = false) ->
  fix_dict_items rec items acc =
  obind (fix_dict_items rec items []) (fun r => Returns (acc ++ r)).
Proof.
  revert acc. induction items as [|[k v] items IH]; intros acc Hu Hd.
  - simpl. now rewrite app_nil_r.
  - simpl in Hu. apply andb_true_iff in Hu. destruct Hu as [Hk Hu].
    apply negb_true_iff in Hk.
    assert (Hfresh : str_in k (keys acc) = false).
    { apply Hd. simpl. now rewrite String.eqb_refl. }
    assert (Hrest : forall k', str_in k' (keys items) = true ->
                               str_in k' (keys acc) = false).
    { intros k' H. apply Hd. simpl. rewrite H. apply orb_true_r. }
    assert (Hstep : forall w,
      fix_dict_items rec items (dict_set acc k w) =
      obind (fix_dict_items rec items (dict_set [] k w))
            (fun r => Returns (acc ++ r))).
    { intros w. rewrite (dict_set_fresh acc), (dict_set_fresh []) by auto.
      simpl app at 2.
      rewrite (IH (acc ++ [(k, w)])), (IH [(k, w)]); auto.
      - destruct (fix_dict_items rec items []); simpl; [|reflexivity].
        now rewrite <- app_assoc.
      - intros k' H. simpl. rewrite orb_false_r.
        destruct (String.eqb_spec k' k); [subst; congruence | reflexivity].
      - intros k' H. rewrite keys_app, str_in_app, (Hrest k' H). simpl.
        rewrite orb_false_r.
        destruct (String.eqb_spec k' k); [subst; congruence | reflexivity]. }
    simpl.
    destruct (String.eqb k "extras" && negb (is_none v)).
    + apply Hstep.
    + destruct (negb (__should_include_json_value k v)).
      * now apply IH.
      * destruct (rec v) as [w|e]; [apply Hstep | reflexivity].
Qed.

Lemma fix_dict_items_cons k v items :
  unique_keys (keys ((k, v) :: items)) = true ->
  fix_dict_items rec ((k, v) :: items) [] =
  if String.eqb k "extras" && negb (is_none v) then
    obind (fix_dict_items rec items []) (fun r => Returns ((k, v) :: r))
  else if negb (__should_include_json_value k v) then
    fix_dict_items rec items []
  else
    obind (rec v) (fun w =>
      obind (fix_dict_items rec items []) (fun r => Returns ((k, w) :: r))).
Proof.
  intros Hu. simpl in Hu. apply andb_true_iff in Hu. destruct Hu as [Hk Hu].
  apply negb_true_iff in Hk.
  assert (Hone : forall w k', str_in k' (keys items) = true ->
                              str_in k' (keys [(k, w)]) = false).
  { intros w k' H. simpl. rewrite orb_false_r.
    destruct (String.eqb_spec k' k); [subst; congruence | reflexivity]. }
  simpl.
  destruct (String.eqb k "extras" && negb (is_none v)).
  - rewrite fix_dict_items_acc; eauto.
  - destruct (negb (__should_include_json_value k v)); [reflexivity|].
    destruct (rec v) as [w|e]; simpl; [|reflexivity].
    rewrite fix_dict_items_acc; eauto.
Qed.

(** The keys of the result are keys of the input, in the same order. *)
Lemma fix_dict_items_keys items r k :
  unique_keys (keys items) = true ->
  fix_dict_items rec items [] = Returns r ->
  str_in k (keys r) = true -> str_in k (keys items) = true.
Proof.
  revert r. induction items as [|[k0 v0] items IH]; intros r Hu H Hin.
  - simpl in H. injection H as <-. discriminate.
  - rewrite fix_dict_items_cons in H by exact Hu.
    simpl in Hu. apply andb_true_iff in Hu. destruct Hu as [_ Hu].
    simpl. destruct (String.eqb_spec k k0); [reflexivity|]. simpl.
    destruct (String.eqb k0 "extras" && negb (is_none v0)).
    + apply bind_returns in H. destruct H as (r' & Hr' & H).
      injection H as <-. simpl in Hin.
      destruct (String.eqb_spec k k0); [contradiction|]. eauto.
    + destruct (negb (__should_include_json_value k0 v0)); [eauto|].
      apply bind_returns in H. destruct H as (w & _ & H).
      apply bind_returns in H. destruct H as (r' & Hr' & H).
      injection H as <-. simpl in Hin.
      destruct (String.eqb_spec k k0); [contradiction|]. eauto.
Qed.

Lemma fix_dict_items_unique items r :
  unique_keys (keys items) = true ->
  fix_dict_items rec items [] = Returns r ->
  unique_keys (keys r) = true.
Proof.
  revert r. induction items as [|[k0 v0] items IH]; intros r Hu H.
  - simpl in H. now injection H as <-.
  - rewrite fix_dict_items_cons in H by exact Hu.
    simpl in Hu. apply andb_true_iff in Hu. destruct Hu as [Hk Hu].
    apply negb_true_iff in Hk.
    assert (Hnew : forall r', fix_dict_items rec items [] = Returns r' ->
                              str_in k0 (keys r') = false).
    { intros r' Hr'. destruct (str_in k0 (keys r')) eqn:E; [|reflexivity].
      apply (fix_dict_items_keys items r' k0 Hu Hr') in E. congruence. }
    destruct (String.eqb k0 "extras" && negb (is_none v0)).
    + apply bind_returns in H. destruct H as (r' & Hr' & H).
      injection H as <-. simpl. rewrite (Hnew r' Hr'). simpl. eauto.
    + destruct (negb (__should_include_json_value k0 v0)); [eauto|].
      apply bind_returns in H. destruct H as (w & _ & H).
      apply bind_returns in H. destruct H as (r' & Hr' & H).
      injection H as <-. simpl. rewrite (Hnew r' Hr'). simpl. eauto.
Qed.

End Loops.

(** ** What the dict loop leaves under each key *)

Section LoopLookups.

Variable rec : json -> outcome json.

Lemma fix_dict_items_absent items r k :
  unique_keys (keys items) = true ->
  fix_dict_items rec items [] = Returns r ->
  str_in k (keys items) = false -> dict_get r k = None.
Proof.
  intros Hu H Hk. apply dict_get_not_in_keys.
  destruct (str_in k (keys r)) eqn:E; [|reflexivity].
  apply (fix_dict_items_keys rec items r k Hu H) in E. congruence.
Qed.

Lemma fix_dict_items_get items r k :
  unique_keys (keys items) = true ->
  fix_dict_items rec items [] = Returns r ->
  dict_get r k =
  match dict_get items k with
  | None => None
  | Some v =>
      if String.eqb k "extras" && negb (is_none v) then Some v
      else if negb (__should_include_json_value k v) then None
      else match rec v with Returns w => Some w | Raises _ => None end
  end.
Proof.
  revert r. induction items as [|[k0 v0] items IH]; intros r Hu H.
  - simpl in H. now injection H as <-.
  - rewrite fix_dict_items_cons in H by exact Hu.
    simpl in Hu. apply andb_true_iff in Hu. destruct Hu as [Hk Hu].
    apply negb_true_iff in Hk. simpl dict_get at 2.
    destruct (String.eqb_spec k0 k) as [->|Hne].
    + destruct (String.eqb k "extras" && negb (is_none v0)).
      * apply bind_returns in H. destruct H as (r' & _ & H).
        injection H as <-. simpl. now rewrite String.eqb_refl.
      * destruct (negb (__should_include_json_value k v0)).
        -- now apply (fix_dict_items_absent items).
        -- apply bind_returns in H. destruct H as (w & -> & H).
           apply bind_returns in H. destruct H as (r' & _ & H).
           injection H as <-. simpl. now rewrite String.eqb_refl.
    + apply String.eqb_neq in Hne.
      destruct (String.eqb k0 "extras" && negb (is_none v0)).
      * apply bind_returns in H. destruct H as (r' & Hr' & H).
        injection H as <-. simpl. rewrite Hne. auto.
      * destruct (negb (__should_include_json_value k0 v0)); [auto|].
        apply bind_returns in H. destruct H as (w & _ & H).
        apply bind_returns in H. destruct H as (r' & Hr' & H).
        injection H as <-. simpl. rewrite Hne. auto.
Qed.

(** A loop that returns has fixed every entry it did not skip. *)
Lemma fix_dict_items_visits items r k v :
  unique_keys (keys items) = true ->
  fix_dict_items rec items [] = Returns r ->
  dict_get items k = Some v ->
  String.eqb k "extras" && negb (is_none v) = false ->
  __should_include_json_value k v = true ->
  exists w, rec v = Returns w /\ dict_get r k = Some w.
Proof.
  revert r. induction items as [|[k0 v0] items IH]; intros r Hu H Hg Hx Hi.
  - discriminate.
  - rewrite fix_dict_items_cons in H by exact Hu.
    simpl in Hu. apply andb_true_iff in Hu. destruct Hu as [Hk Hu].
    simpl in Hg.
    destruct (String.eqb_spec k0 k) as [->|Hne].
    + injection Hg as ->. rewrite Hx, Hi in H. simpl in H.
      apply bind_returns in H. destruct H as (w & Hw & H).
      apply bind_returns in H. destruct H as (r' & _ & H).
      injection H as <-. exists w. simpl. now rewrite String.eqb_refl.
    + apply String.eqb_neq in Hne.
      destruct (String.eqb k0 "extras" && negb (is_none v0)).
      * apply bind_returns in H. destruct H as (r' & Hr' & H).
        injection H as <-. simpl. rewrite Hne. eauto.
      * destruct (negb (__should_include_json_value k0 v0)); [eauto|].
        apply bind_returns in H. destruct H as (w & _ & H).
        apply bind_returns in H. destruct H as (r' & Hr' & H).
        injection H as <-. simpl. rewrite Hne. eauto.
Qed.

Lemma fix_list_items_nth items r i v :
  fix_list_items rec items [] = Returns r ->
  nth_error items i = Some v ->
  exists w, rec v = Returns w /\ nth_error r i = Some w.
Proof.
  revert r i. induction items as [|a items IH]; intros r i H Hn.
  - destruct i; discriminate.
  - rewrite fix_list_items_cons in H.
    apply bind_returns in H. destruct H as (w & Hw & H).
    apply bind_returns in H. destruct H as (r' & Hr' & H).
    injection H as <-. destruct i as [|i]; simpl in *.
    + injection Hn as <-. eauto.
    + eauto.
Qed.

Lemma fix_list_items_length items r :
  fix_list_items rec items [] = Returns r -> List.length r = List.length items.
Proof.
  revert r. induction items as [|a items IH]; intros r H.
  - simpl in H. now injection H as <-.
  - rewrite fix_list_items_cons in H.
    apply bind_returns in H. destruct H as (w & Hw & H).
    apply bind_returns in H. destruct H as (r' & Hr' & H).
    injection H as <-. simpl. f_equal. auto.
Qed.

End LoopLookups.

(** ** Following a path through the pass *)

Lemma fix_json_dict d y :
  __fix_json (JDict d) = Returns y ->
  exists r, fix_dict_items __fix_json d [] = Returns r /\ y = JDict r.
Proof.
  simpl. intros H. apply bind_returns in H. destruct H as (r & Hr & H).
  injection H as <-. eauto.
Qed.

Lemma fix_json_list l y :
  __fix_json (JList l) = Returns y ->
  exists r, fix_list_items __fix_json l [] = Returns r /\ y = JList r.
Proof.
  simpl. intros H. apply bind_returns in H. destruct H as (r & Hr & H).
  injection H as <-. eauto.
Qed.

Lemma wf_dict_get d k v :
  wf_json (JDict d) = true -> dict_get d k = Some v -> wf_json v = true.
Proof.
  simpl. intros H. apply andb_true_iff in H. destruct H as [_ H].
  induction d as [|[k0 v0] d IH]; simpl in *; [discriminate|].
  apply andb_true_iff in H. destruct H as [H0 H].
  destruct (String.eqb k0 k); [intros [= <-]; exact H0 | auto].
Qed.

Lemma wf_list_nth l i v :
  wf_json (JList l) = true -> nth_error l i = Some v -> wf_json v = true.
Proof.
  simpl. intros H Hn. apply nth_error_In in Hn.
  rewrite forallb_forall in H. auto.
Qed.

(** A value with something below it is neither [None] nor empty. *)
Lemma json_at_below_included x s q v k :
  json_at x (s :: q) = Some v -> __should_include_json_value k x = true.
Proof.
  destruct s as [k'|i]; simpl.
  - destruct x; try discriminate. destruct d as [|kv d]; [discriminate|].
    intros _. reflexivity.
  - destruct x; try discriminate. destruct l as [|a l]; [|reflexivity].
    destruct i; discriminate.
Qed.

Lemma fix_json_at p : forall x y v,
  wf_json x = true ->
  __fix_json x = Returns y ->
  extras_free p = true ->
  json_at x p = Some v ->
  kept_at p v = true ->
  exists w, __fix_json v = Returns w /\ json_at y p = Some w.
Proof.
  induction p as [|s p IH]; intros x y v Hwf Hfix Hfree Hat Hkept.
  - simpl in Hat. injection Hat as <-. exists y. auto.
  - simpl in Hfree. apply andb_true_iff in Hfree. destruct Hfree as [Hs Hfree].
    apply negb_true_iff in Hs.
    destruct s as [k|i].
    + destruct x; try discriminate. simpl in Hat.
      destruct (dict_get d k) as [u|] eqn:Hg; [|discriminate].
      apply fix_json_dict in Hfix. destruct Hfix as (r & Hr & ->).
      assert (Hu : unique_keys (keys d) = true).
      { simpl in Hwf. now apply andb_true_iff in Hwf. }
      assert (Hinc : __should_include_json_value k u = true).
      { destruct p as [|s' p'].
        - simpl in Hat. injection Hat as ->. exact Hkept.
        - eapply json_at_below_included; eauto. }
      simpl in Hs.
      destruct (fix_dict_items_visits __fix_json d r k u Hu Hr Hg) as (w & Hw & Hrw);
        [now rewrite Hs | exact Hinc |].
      destruct (IH u w v) as (w' & Hw' & Hat'); auto.
      * eapply wf_dict_get; eauto.
      * destruct p; [reflexivity | exact Hkept].
      * exists w'. simpl. now rewrite Hrw.
    + destruct x; try discriminate. simpl in Hat.
      destruct (nth_error l i) as [u|] eqn:Hn; [|discriminate].
      apply fix_json_list in Hfix. destruct Hfix as (r & Hr & ->).
      destruct (fix_list_items_nth __fix_json l r i u Hr Hn) as (w & Hw & Hrw).
      destruct (IH u w v) as (w' & Hw' & Hat'); auto.
      * eapply wf_list_nth; eauto.
      * exists w'. simpl. now rewrite Hrw.
Qed.

(** ** Floats *)

Lemma to_Q_negative_exponent s m e z :
  e < 0 ->
  Qeq (to_Q (S754_finite s m e)) (inject_Z z) <-> signed s (Z.pos m) = z * 2 ^ (- e).
Proof.
  intros He. unfold to_Q.
  destruct (Z.leb_spec 0 e); [lia|].
  unfold Qeq, inject_Z; simpl Qnum; simpl Qden.
  assert (Hp : 0 < 2 ^ (- e)) by (apply Z.pow_pos_nonneg; lia).
  rewrite Z2Pos.id by exact Hp. rewrite Z.mul_1_r. reflexivity.
Qed.

Lemma to_Q_nonnegative_exponent s m e z :
  0 <= e ->
  Qeq (to_Q (S754_finite s m e)) (inject_Z z) <-> signed s (Z.pos m * 2 ^ e) = z.
Proof.
  intros He. unfold to_Q.
  destruct (Z.leb_spec 0 e); [|lia].
  unfold Qeq, inject_Z; simpl Qnum; simpl Qden.
  rewrite !Z.mul_1_r. reflexivity.
Qed.

Lemma int_of_float_integral f z :
  integral f z -> int_of_float f = Returns z /\ int_eq_float z f = true.
Proof.
  intros [Hfin Hq]. destruct f as [s|s| |s m e]; try discriminate.
  - unfold to_Q, Qeq, inject_Z in Hq. simpl in Hq.
    assert (z = 0) by lia. subst. split; reflexivity.
  - simpl. destruct (Z.leb_spec 0 e) as [He|He].
    + apply to_Q_nonnegative_exponent in Hq; [|exact He]. subst z.
      split; [reflexivity | apply Z.eqb_refl].
    + apply to_Q_negative_exponent in Hq; [|exact He].
      assert (Hp : 0 < 2 ^ (- e)) by (apply Z.pow_pos_nonneg; lia).
      split; [|now apply Z.eqb_eq].
      f_equal.
      assert (Hm : Z.pos m = signed s z * 2 ^ (- e)).
      { destruct s; simpl in *; lia. }
      rewrite Hm, Z.div_mul by lia.
      destruct s; simpl; lia.
Qed.

Lemma int_eq_float_integral f i :
  int_eq_float i f = true -> integral f i.
Proof.
  destruct f as [s|s| |s m e]; simpl; try discriminate.
  - intros H. apply Z.eqb_eq in H. subst. split; reflexivity.
  - intros H. split; [reflexivity|].
    destruct (Z.leb_spec 0 e) as [He|He]; apply Z.eqb_eq in H.
    + apply to_Q_nonnegative_exponent; auto.
    + apply to_Q_negative_exponent; auto.
Qed.

Lemma fix_json_float_integral f z :
  integral f z -> __fix_json (JFloat f) = Returns (JInt z).
Proof.
  intros H. apply int_of_float_integral in H. destruct H as [Hi He].
  simpl. rewrite Hi. simpl. now rewrite He.
Qed.

Lemma fix_json_float_other f :
  is_finite f = true -> (forall z, ~ integral f z) ->
  __fix_json (JFloat f) = Returns (JFloat f).
Proof.
  intros Hfin Hno. simpl.
  destruct (int_of_float f) as [i|e] eqn:Hi.
  - simpl. destruct (int_eq_float i f) eqn:He; [|reflexivity].
    apply int_eq_float_integral in He. now apply Hno in He.
  - destruct f; discriminate.
Qed.

Lemma fix_json_float_returns f w :
  __fix_json (JFloat f) = Returns w -> is_finite f = true.
Proof. destruct f; simpl; try discriminate; reflexivity. Qed.

Lemma fix_json_float_finite f :
  is_finite f = true -> exists w, __fix_json (JFloat f) = Returns w.
Proof.
  destruct f as [s|s| |s m e]; try discriminate; intros _; simpl.
  - eauto.
  - match goal with |- context [if ?c then _ else _] => destruct c end; eauto.
Qed.

Lemma fix_json_float_raises f :
  is_finite f = false -> exists e, __fix_json (JFloat f) = Raises e.
Proof. destruct f; try discriminate; simpl; eauto. Qed.

Lemma fix_json_scalar x :
  is_scalar x = true -> is_float x = false -> __fix_json x = Returns x.
Proof. destruct x; simpl; try discriminate; reflexivity. Qed.

(** ** Paths into dicts *)

Lemma json_at_app x p q :
  json_at x (p ++ q) =
  match json_at x p with Some v => json_at v q | None => None end.
Proof.
  revert x. induction p as [|s p IH]; intros x; simpl; [reflexivity|].
  destruct s as [k|i]; destruct x; try reflexivity.
  - destruct (dict_get d k); [apply IH | reflexivity].
  - destruct (nth_error l i); [apply IH | reflexivity].
Qed.

Lemma json_at_key x p k v :
  json_at x (p ++ [Key k]) = Some v ->
  exists d, json_at x p = Some (JDict d) /\ dict_get d k = Some v.
Proof.
  rewrite json_at_app. destruct (json_at x p) as [u|]; [|discriminate].
  simpl. destruct u; try discriminate.
  destruct (dict_get d k) eqn:E; [|discriminate].
  intros [= <-]. eauto.
Qed.

Lemma kept_at_included p v :
  (forall k, __should_include_json_value k v = true) -> kept_at p v = true.
Proof.
  intros H. induction p as [|s p IH]; [reflexivity|].
  destruct s as [k|i]; destruct p; simpl; auto.
Qed.

Lemma dict_with_key_included d k v k' :
  dict_get d k = Some v -> __should_include_json_value k' (JDict d) = true.
Proof. destruct d; [discriminate | reflexivity]. Qed.

Lemma wf_json_at p : forall x v,
  wf_json x = true -> json_at x p = Some v -> wf_json v = true.
Proof.
  induction p as [|s p IH]; intros x v Hwf Hat; simpl in Hat.
  - now injection Hat as <-.
  - destruct s as [k|i]; destruct x; try discriminate.
    + destruct (dict_get d k) as [u|] eqn:E; [|discriminate].
      apply (IH u); [eapply wf_dict_get; eauto | exact Hat].
    + destruct (nth_error l i) as [u|] eqn:E; [|discriminate].
      apply (IH u); [eapply wf_list_nth; eauto | exact Hat].
Qed.

(** The dict found at a visited path, before and after the pass. *)
Lemma fix_json_at_dict x y p d k v :
  wf_json x = true ->
  __fix_json x = Returns y ->
  extras_free p = true ->
  json_at x p = Some (JDict d) ->
  dict_get d k = Some v ->
  exists r, unique_keys (keys d) = true /\
            fix_dict_items __fix_json d [] = Returns r /\
            json_at y p = Some (JDict r) /\
            wf_json v = true.
Proof.
  intros Hwf Hfix Hfree Hat Hg.
  destruct (fix_json_at p x y (JDict d) Hwf Hfix Hfree Hat) as (w & Hw & Hy).
  { apply kept_at_included. intros k'. eapply dict_with_key_included; eauto. }
  apply fix_json_dict in Hw. destruct Hw as (r & Hr & ->).
  assert (Hwd : wf_json (JDict d) = true) by (eapply wf_json_at; eauto).
  exists r. repeat split; auto.
  - simpl in Hwd. now apply andb_true_iff in Hwd.
  - eapply wf_dict_get; eauto.
Qed.

Lemma fix_json_empty v :
  __is_empty_collection v = true -> __fix_json v = Returns v.
Proof.
  destruct v; try discriminate.
  - destruct l; [reflexivity | discriminate].
  - destruct d; [reflexivity | discriminate].
Qed.

Lemma empty_not_none v : __is_empty_collection v = true -> is_none v = false.
Proof. destruct v; try discriminate; reflexivity. Qed.

(** ** Null values and ['extras'] *)

(** C3, as stated, fails: an ['extras'] key whose value is [None] is dropped
    like any other null-valued key, so [{"name": None, "extras": None}]
    becomes [{}] and not [{"extras": None}]. *)
Lemma fix_json_extras_null_dropped :
  __fix_json (JDict [("name", JNull); ("extras", JNull)]) = Returns (JDict [])
  /\ __fix_json (JDict [("name", JNull); ("extras", JNull)])
     <> Returns (JDict [("extras", JNull)]).
Proof. split; [reflexivity | discriminate]. Qed.

(** C3, amended: in every dict the pass visits (one reached by a path that
    enters no ['extras'] value), each key whose value is [None] is removed,
    the key ['extras'] included; an ['extras'] key whose value is not [None]
    is kept with its value untouched. *)
Theorem fix_json_null_values (x y : json) (p : path) (k : string) :
  wf_json x = true ->
  __fix_json x = Returns y ->
  extras_free p = true ->
  (json_at x (p ++ [Key k]) = Some JNull ->
   json_at y (p ++ [Key k]) = None)
  /\ (forall v, json_at x (p ++ [Key "extras"]) = Some v ->
                is_none v = false ->
                json_at y (p ++ [Key "extras"]) = Some v).
Proof.
  intros Hwf Hfix Hfree. split.
  - intros Hat. apply json_at_key in Hat. destruct Hat as (d & Hd & Hg).
    destruct (fix_json_at_dict x y p d k JNull Hwf Hfix Hfree Hd Hg)
      as (r & Hu & Hr & Hy & _).
    rewrite json_at_app, Hy. simpl.
    rewrite (fix_dict_items_get __fix_json d r k Hu Hr), Hg. simpl.
    now rewrite andb_false_r.
  - intros v Hat Hv. apply json_at_key in Hat. destruct Hat as (d & Hd & Hg).
    destruct (fix_json_at_dict x y p d "extras" v Hwf Hfix Hfree Hd Hg)
      as (r & Hu & Hr & Hy & _).
    rewrite json_at_app, Hy. simpl.
    rewrite (fix_dict_items_get __fix_json d r "extras" Hu Hr), Hg, Hv.
    reflexivity.
Qed.

Lemma fix_json_null_values_witness :
  wf_json material_with_extras = true
  /\ __fix_json material_with_extras = Returns material_fixed
  /\ extras_free [Key "pbr"] = true
  /\ (json_at material_with_extras ([Key "pbr"] ++ [Key "extras"]) = Some JNull ->
      json_at material_fixed ([Key "pbr"] ++ [Key "extras"]) = None)
  /\ (forall v, json_at material_with_extras ([Key "pbr"] ++ [Key "extras"]) = Some v ->
                is_none v = false ->
                json_at material_fixed ([Key "pbr"] ++ [Key "extras"]) = Some v).
Proof.
  split; [reflexivity|]. split; [reflexivity|]. split; [reflexivity|].
  apply (fix_json_null_values material_with_extras material_fixed
           [Key "pbr"] "extras"); reflexivity.
Defined.

(** ** Empty collections *)

Lemma should_include_empty k v :
  __is_empty_collection v = true ->
  __should_include_json_value k v = str_in k allowed_empty_collections.
Proof.
  intros H. unfold __should_include_json_value.
  rewrite (empty_not_none v H), H.
  now destruct (str_in k allowed_empty_collections).
Qed.

(** C6, as stated, fails: ['extras'] is not on the allow-list, yet an
    ['extras'] key whose value is an empty dict or list is kept. *)
Lemma fix_json_empty_extras_kept :
  str_in "extras" allowed_empty_collections = false
  /\ __is_empty_collection (JDict []) = true
  /\ __fix_json (JDict [("extras", JDict []); ("samplers", JList [])])
     = Returns (JDict [("extras", JDict [])]).
Proof. repeat split. Qed.

(** C6, amended: in every dict the pass visits, a key whose value is an empty
    dict or an empty list is removed unless the key is on the allow-list or
    is ['extras']; in those two cases the key stays with its empty value.
    The allow-list holds exactly the key ['KHR_materials_unlit']. *)
Theorem fix_json_empty_collections (x y : json) (p : path) (k : string) (v : json) :
  wf_json x = true ->
  __fix_json x = Returns y ->
  extras_free p = true ->
  json_at x (p ++ [Key k]) = Some v ->
  __is_empty_collection v = true ->
  json_at y (p ++ [Key k]) =
    (if str_in k allowed_empty_collections || String.eqb k "extras"
     then Some v else None)
  /\ allowed_empty_collections = ["KHR_materials_unlit"].
Proof.
  intros Hwf Hfix Hfree Hat Hempty. split; [|reflexivity].
  apply json_at_key in Hat. destruct Hat as (d & Hd & Hg).
  destruct (fix_json_at_dict x y p d k v Hwf Hfix Hfree Hd Hg)
    as (r & Hu & Hr & Hy & _).
  rewrite json_at_app, Hy. simpl json_at.
  rewrite (fix_dict_items_get __fix_json d r k Hu Hr), Hg.
  rewrite (should_include_empty k v Hempty), (empty_not_none v Hempty).
  rewrite (fix_json_empty v Hempty).
  destruct (String.eqb k "extras"); [now rewrite orb_true_r|].
  now destruct (str_in k allowed_empty_collections).
Qed.

Lemma fix_json_empty_collections_witness :
  __fix_json unlit_material = Returns (JDict [("KHR_materials_unlit", JDict [])])
  /\ json_at (JDict [("KHR_materials_unlit", JDict [])])
             ([] ++ [Key "KHR_materials_unlit"]) =
       (if str_in "KHR_materials_unlit" allowed_empty_collections
           || String.eqb "KHR_materials_unlit" "extras"
        then Some (JDict []) else None)
  /\ allowed_empty_collections = ["KHR_materials_unlit"].
Proof.
  split; [reflexivity|].
  apply (fix_json_empty_collections unlit_material
           (JDict [("KHR_materials_unlit", JDict [])]) []
           "KHR_materials_unlit" (JDict [])); reflexivity.
Defined.

Example fix_json_samplers :
  __fix_json (JDict [("samplers", JList [])]) = Returns (JDict []).
Proof. reflexivity. Qed.

(** ** Float scalars *)

Lemma integral_five : integral five 5.
Proof. split; reflexivity. Qed.

(** C5, as stated, fails twice: an integral float inside an ['extras'] value
    stays a float, and a NaN scalar (no integral value) is not returned
    unchanged: the pass raises. *)
Lemma fix_json_float_not_replaced :
  (__fix_json extras_with_five = Returns extras_with_five
   /\ json_at extras_with_five [Key "extras"; Key "x"] = Some (JFloat five)
   /\ integral five 5)
  /\ (exists e, __fix_json (JFloat nan) = Raises e /\ exn_cls e = ValueError).
Proof.
  split.
  - repeat split.
  - eexists. split; reflexivity.
Qed.

(** C5, amended: for every float that the pass visits (one at a path that
    enters no ['extras'] value) in a run that returns, the float is finite;
    if its value is an integer the result holds that integer at the same
    place, otherwise it holds the same float.  Any other scalar at a visited
    path that is not a skipped dict entry is unchanged. *)
Theorem fix_json_floats (x y : json) (p : path) :
  wf_json x = true ->
  __fix_json x = Returns y ->
  extras_free p = true ->
  (forall f, json_at x p = Some (JFloat f) ->
     is_finite f = true
     /\ (forall z, integral f z -> json_at y p = Some (JInt z))
     /\ ((forall z, ~ integral f z) -> json_at y p = Some (JFloat f)))
  /\ (forall s, json_at x p = Some s ->
        is_scalar s = true -> is_float s = false -> kept_at p s = true ->
        json_at y p = Some s).
Proof.
  intros Hwf Hfix Hfree. split.
  - intros f Hat.
    destruct (fix_json_at p x y (JFloat f) Hwf Hfix Hfree Hat) as (w & Hw & Hy).
    { apply kept_at_included. reflexivity. }
    pose proof (fix_json_float_returns f w Hw) as Hfin.
    split; [exact Hfin|]. split.
    + intros z Hz. rewrite (fix_json_float_integral f z Hz) in Hw. congruence.
    + intros Hno. rewrite (fix_json_float_other f Hfin Hno) in Hw. congruence.
  - intros s Hat Hs Hf Hk.
    destruct (fix_json_at p x y s Hwf Hfix Hfree Hat Hk) as (w & Hw & Hy).
    rewrite (fix_json_scalar s Hs Hf) in Hw. congruence.
Qed.

Lemma five_and_half_not_integral z : ~ integral five_and_half z.
Proof.
  intros [_ H]. apply to_Q_negative_exponent in H; [|lia].
  simpl in H. lia.
Qed.

Lemma fix_json_floats_witness :
  json_at accessor_fixed [Key "count"] = Some (JInt 5)
  /\ json_at accessor_fixed [Key "max"; Index 0] = Some (JFloat five_and_half).
Proof.
  split.
  - exact (proj1 (proj2 (proj1 (fix_json_floats accessor accessor_fixed
                                  [Key "count"] eq_refl eq_refl eq_refl)
                               five eq_refl))
                 5 integral_five).
  - exact (proj2 (proj2 (proj1 (fix_json_floats accessor accessor_fixed
                                  [Key "max"; Index 0] eq_refl eq_refl eq_refl)
                               five_and_half eq_refl))
                 five_and_half_not_integral).
Defined.

(** ** When the pass raises *)

Section LoopRaises.

Variable rec : json -> outcome json.

Lemma fix_list_items_raises items e :
  fix_list_items rec items [] = Raises e ->
  exists i v, nth_error items i = Some v /\ rec v = Raises e.
Proof.
  induction items as [|a items IH]; intros H; [discriminate|].
  rewrite fix_list_items_cons in H.
  destruct (rec a) as [w|e'] eqn:Ha; simpl in H.
  - destruct (fix_list_items rec items []) as [r|e'] eqn:Hr; [discriminate|].
    simpl in H. injection H as ->.
    destruct (IH eq_refl) as (i & v & Hn & Hv).
    exists (S i), v. auto.
  - injection H as ->. exists 0%nat, a. auto.
Qed.

Lemma fix_dict_items_raises items e :
  unique_keys (keys items) = true ->
  fix_dict_items rec items [] = Raises e ->
  exists k v, dict_get items k = Some v /\ String.eqb k "extras" = false
              /\ rec v = Raises e.
Proof.
  induction items as [|[k0 v0] items IH]; intros Hu H; [discriminate|].
  rewrite fix_dict_items_cons in H by exact Hu.
  simpl in Hu. apply andb_true_iff in Hu. destruct Hu as [Hk Hu].
  apply negb_true_iff in Hk.
  assert (Htail : fix_dict_items rec items [] = Raises e ->
    exists k v, dict_get ((k0, v0) :: items) k = Some v
                /\ String.eqb k "extras" = false /\ rec v = Raises e).
  { intros Hr. destruct (IH Hu Hr) as (k & v & Hg & Hx & Hv).
    exists k, v. repeat split; auto. simpl.
    destruct (String.eqb_spec k0 k) as [->|]; [|exact Hg].
    apply dict_get_in_keys in Hg. congruence. }
  destruct (String.eqb k0 "extras" && negb (is_none v0)) eqn:Hx.
  - destruct (fix_dict_items rec items []) as [r|e'] eqn:Hr; [discriminate|].
    simpl in H. injection H as ->. auto.
  - destruct (__should_include_json_value k0 v0) eqn:Hi; simpl in H; [|auto].
    destruct (rec v0) as [w|e'] eqn:Hv; simpl in H.
    + destruct (fix_dict_items rec items []) as [r|e'] eqn:Hr; [discriminate|].
      simpl in H. injection H as ->. auto.
    + injection H as ->. exists k0, v0. simpl. rewrite String.eqb_refl.
      repeat split; auto.
      destruct (String.eqb k0 "extras"); [|reflexivity].
      simpl in Hx. apply negb_false_iff in Hx.
      destruct v0; discriminate.
Qed.

End LoopRaises.

Lemma dict_get_In d k v : dict_get d k = Some v -> In (k, v) d.
Proof.
  induction d as [|[k0 v0] d IHd]; [discriminate|].
  simpl. destruct (String.eqb_spec k0 k) as [->|].
  - intros [= ->]. now left.
  - right. auto.
Qed.

Lemma fix_json_raises_at x :
  wf_json x = true ->
  forall e, __fix_json x = Raises e ->
  exists p f, extras_free p = true /\ json_at x p = Some (JFloat f)
              /\ is_finite f = false.
Proof.
  induction x as [| | |f| |l IH|d IH] using json_nested_ind;
    intros Hwf e H; try discriminate.
  - exists [], f. repeat split.
    destruct (is_finite f) eqn:Hf; [|reflexivity].
    destruct (fix_json_float_finite f Hf) as [w Hw]. congruence.
  - simpl in H.
    destruct (fix_list_items __fix_json l []) as [r|e'] eqn:Hr; [discriminate|].
    simpl in H. injection H as ->.
    destruct (fix_list_items_raises _ _ _ Hr) as (i & v & Hn & Hv).
    rewrite Forall_forall in IH.
    destruct (IH v (nth_error_In _ _ Hn) (wf_list_nth _ _ _ Hwf Hn) e Hv)
      as (p & f & Hp & Hat & Hf).
    exists (Index i :: p), f. repeat split; auto.
    simpl. now rewrite Hn.
  - simpl in H.
    destruct (fix_dict_items __fix_json d []) as [r|e'] eqn:Hr; [discriminate|].
    simpl in H. injection H as ->.
    assert (Hu : unique_keys (keys d) = true).
    { simpl in Hwf. now apply andb_true_iff in Hwf. }
    destruct (fix_dict_items_raises _ _ _ Hu Hr) as (k & v & Hg & Hx & Hv).
    rewrite Forall_forall in IH.
    assert (Hin : In (k, v) d) by now apply dict_get_In.
    destruct (IH (k, v) Hin (wf_dict_get _ _ _ Hwf Hg) e Hv)
      as (p & f & Hp & Hat & Hf).
    exists (Key k :: p), f. repeat split; auto.
    + simpl. now rewrite Hx.
    + simpl. now rewrite Hg.
Qed.



Lemma floats_finite_all x : floats_finite x = true -> all_floats_finite x.
Proof.
  intros H p. revert x H.
  induction p as [|s p IH]; intros x H f Hat; simpl in Hat.
  - injection Hat as ->. exact H.
  - destruct s as [k|i]; destruct x; try discriminate; simpl in H;
      rewrite forallb_forall in H.
    + destruct (dict_get d k) as [u|] eqn:E; [|discriminate].
      apply (IH u); [|exact Hat]. apply (H (k, u)). now apply dict_get_In.
    + destruct (nth_error l i) as [u|] eqn:E; [|discriminate].
      apply (IH u); [|exact Hat]. apply H. eapply nth_error_In; eauto.
Qed.

(** ** The pass under the recursion limit *)




Section LimitedLoops.

Variable include' : string -> json -> outcome bool.
Variable rec rec' : json -> outcome json.






End LimitedLoops.





Example fix_json_limited_deep_list :
  wf_json (JList [JList [JList [JList []]]]) = true
  /\ all_floats_finite (JList [JList [JList [JList []]]])
  /\ __fix_json_limited 3 (JList [JList [JList [JList []]]]) = Raises recursion_error
  /\ __fix_json_limited 4 (JList [JList [JList [JList []]]])
     = Returns (JList [JList [JList [JList []]]]).
Proof.
  split; [reflexivity|]. split; [apply floats_finite_all; reflexivity|].
  split; reflexivity.
Qed.



(** ** A second pass *)

Lemma no_droppable_empty_list_head w r :
  no_droppable_empty (JList (w :: r)) -> no_droppable_empty w.
Proof. intros H p k v Hp Hat. apply (H (Index 0 :: p) k v); assumption. Qed.

Lemma no_droppable_empty_list_tail w r :
  no_droppable_empty (JList (w :: r)) -> no_droppable_empty (JList r).
Proof.
  intros H p k v Hp Hat.
  destruct p as [|[k'|i] p]; try discriminate.
  apply (H (Index (S i) :: p) k v); assumption.
Qed.

Lemma no_droppable_empty_dict_head k w r :
  String.eqb k "extras" = false ->
  no_droppable_empty (JDict ((k, w) :: r)) -> no_droppable_empty w.
Proof.
  intros Hk H p k' v Hp Hat. apply (H (Key k :: p) k' v).
  - simpl. now rewrite Hk.
  - simpl. now rewrite String.eqb_refl.
Qed.

Lemma no_droppable_empty_dict_tail k w r :
  str_in k (keys r) = false ->
  no_droppable_empty (JDict ((k, w) :: r)) -> no_droppable_empty (JDict r).
Proof.
  intros Hk H p k' v Hp Hat. apply (H p k' v); [exact Hp|].
  destruct p as [|[k1|i] p]; simpl in *.
  - destruct (dict_get r k') eqn:E; [|discriminate].
    destruct (String.eqb_spec k k') as [->|]; [|exact Hat].
    apply dict_get_in_keys in E. congruence.
  - destruct (dict_get r k1) eqn:E; [|discriminate].
    destruct (String.eqb_spec k k1) as [->|]; [|exact Hat].
    apply dict_get_in_keys in E. congruence.
  - discriminate.
Qed.

Lemma fix_json_is_none v w : __fix_json v = Returns w -> is_none w = is_none v.
Proof.
  destruct v; simpl; try (intros [= <-]; reflexivity).
  - destruct (int_of_float f) as [i|e]; simpl; [|discriminate].
    destruct (int_eq_float i f); intros [= <-]; reflexivity.
  - intros H. apply bind_returns in H. destruct H as (r & _ & [= <-]). reflexivity.
  - intros H. apply bind_returns in H. destruct H as (r & _ & [= <-]). reflexivity.
Qed.

Lemma settles_list l :
  Forall settles l ->
  forall r, forallb wf_json l = true ->
            fix_list_items __fix_json l [] = Returns r ->
            no_droppable_empty (JList r) ->
            fix_list_items __fix_json r [] = Returns r.
Proof.
  induction 1 as [|a l Ha Hl IH]; intros r Hwf Hr Hnd.
  - simpl in Hr. now injection Hr as <-.
  - rewrite fix_list_items_cons in Hr.
    apply bind_returns in Hr. destruct Hr as (w & Hw & Hr).
    apply bind_returns in Hr. destruct Hr as (r' & Hr' & [= <-]).
    simpl in Hwf. apply andb_true_iff in Hwf. destruct Hwf as [Hwa Hwl].
    rewrite fix_list_items_cons.
    rewrite (Ha w Hwa Hw (no_droppable_empty_list_head _ _ Hnd)). simpl.
    rewrite (IH r' Hwl Hr' (no_droppable_empty_list_tail _ _ Hnd)).
    reflexivity.
Qed.

Lemma settles_dict d :
  Forall (fun kv => settles (snd kv)) d ->
  forall r, unique_keys (keys d) = true ->
            forallb (fun kv => wf_json (snd kv)) d = true ->
            fix_dict_items __fix_json d [] = Returns r ->
            no_droppable_empty (JDict r) ->
            fix_dict_items __fix_json r [] = Returns r.
Proof.
  induction 1 as [|[k0 v0] d Ha Hd IH]; intros r Hu Hwf Hr Hnd.
  - simpl in Hr. now injection Hr as <-.
  - pose proof (fix_dict_items_unique _ _ _ Hu Hr) as Hur.
    rewrite fix_dict_items_cons in Hr by exact Hu.
    simpl in Hu. apply andb_true_iff in Hu. destruct Hu as [_ Hu].
    simpl in Hwf. apply andb_true_iff in Hwf. destruct Hwf as [Hwa Hwd].
    simpl in Ha.
    destruct (String.eqb k0 "extras" && negb (is_none v0)) eqn:Hx.
    + apply bind_returns in Hr. destruct Hr as (r' & Hr' & [= <-]).
      rewrite fix_dict_items_cons by exact Hur. rewrite Hx.
      simpl in Hur. apply andb_true_iff in Hur. destruct Hur as [Hk0 _].
      apply negb_true_iff in Hk0.
      rewrite (IH r' Hu Hwd Hr' (no_droppable_empty_dict_tail _ _ _ Hk0 Hnd)).
      reflexivity.
    + destruct (__should_include_json_value k0 v0) eqn:Hi; simpl in Hr;
        [|now apply IH].
      apply bind_returns in Hr. destruct Hr as (w & Hw & Hr).
      apply bind_returns in Hr. destruct Hr as (r' & Hr' & [= <-]).
      assert (Hnone : is_none v0 = false).
      { unfold __should_include_json_value in Hi.
        destruct (is_none v0); [discriminate | reflexivity]. }
      assert (Hk : String.eqb k0 "extras" = false).
      { rewrite Hnone in Hx. simpl in Hx. now rewrite andb_true_r in Hx. }
      assert (Hwnone : is_none w = false).
      { now rewrite (fix_json_is_none v0 w Hw). }
      assert (Hiw : __should_include_json_value k0 w = true).
      { destruct (__is_empty_collection w) eqn:He.
        - rewrite (should_include_empty k0 w He).
          apply (Hnd [] k0 w); [simpl; now rewrite Hk | | exact He].
          simpl. now rewrite String.eqb_refl.
        - unfold __should_include_json_value. now rewrite Hwnone, He. }
      rewrite fix_dict_items_cons by exact Hur.
      rewrite Hk, Hiw. simpl.
      rewrite (Ha w Hwa Hw (no_droppable_empty_dict_head _ _ _ Hk Hnd)). simpl.
      simpl in Hur. apply andb_true_iff in Hur. destruct Hur as [Hk0 _].
      apply negb_true_iff in Hk0.
      rewrite (IH r' Hu Hwd Hr' (no_droppable_empty_dict_tail _ _ _ Hk0 Hnd)).
      reflexivity.
Qed.

Lemma fix_json_settles x : settles x.
Proof.
  induction x as [| | |f| |l IH|d IH] using json_nested_ind;
    intros y Hwf Hy Hnd; try (simpl in Hy; injection Hy as <-; reflexivity).
  - simpl in Hy. destruct (int_of_float f) as [i|e] eqn:Hi; [|discriminate].
    simpl in Hy. destruct (int_eq_float i f) eqn:He; injection Hy as <-.
    + reflexivity.
    + simpl. rewrite Hi. simpl. now rewrite He.
  - apply fix_json_list in Hy. destruct Hy as (r & Hr & ->).
    simpl. now rewrite (settles_list l IH r Hwf Hr Hnd).
  - apply fix_json_dict in Hy. destruct Hy as (r & Hr & ->).
    simpl in Hwf. apply andb_true_iff in Hwf. destruct Hwf as [Hu Hwd].
    simpl. now rewrite (settles_dict d IH r Hu Hwd Hr Hnd).
Qed.

Lemma keeps_wf_list l :
  Forall keeps_wf l ->
  forall r, forallb wf_json l = true ->
            fix_list_items __fix_json l [] = Returns r ->
            forallb wf_json r = true.
Proof.
  induction 1 as [|a l Ha Hl IH]; intros r Hwf Hr.
  - simpl in Hr. now injection Hr as <-.
  - rewrite fix_list_items_cons in Hr.
    apply bind_returns in Hr. destruct Hr as (w & Hw & Hr).
    apply bind_returns in Hr. destruct Hr as (r' & Hr' & [= <-]).
    simpl in Hwf. apply andb_true_iff in Hwf. destruct Hwf as [Hwa Hwl].
    simpl. rewrite (Ha w Hwa Hw). simpl. auto.
Qed.

Lemma keeps_wf_dict d :
  Forall (fun kv => keeps_wf (snd kv)) d ->
  forall r, unique_keys (keys d) = true ->
            forallb (fun kv => wf_json (snd kv)) d = true ->
            fix_dict_items __fix_json d [] = Returns r ->
            forallb (fun kv => wf_json (snd kv)) r = true.
Proof.
  induction 1 as [|[k0 v0] d Ha Hd IH]; intros r Hu Hwf Hr.
  - simpl in Hr. now injection Hr as <-.
  - rewrite fix_dict_items_cons in Hr by exact Hu.
    simpl in Hu. apply andb_true_iff in Hu. destruct Hu as [_ Hu].
    simpl in Hwf. apply andb_true_iff in Hwf. destruct Hwf as [Hwa Hwd].
    simpl in Ha.
    destruct (String.eqb k0 "extras" && negb (is_none v0)).
    + apply bind_returns in Hr. destruct Hr as (r' & Hr' & [= <-]).
      simpl. rewrite Hwa. simpl. auto.
    + destruct (negb (__should_include_json_value k0 v0)); [auto|].
      apply bind_returns in Hr. destruct Hr as (w & Hw & Hr).
      apply bind_returns in Hr. destruct Hr as (r' & Hr' & [= <-]).
      simpl. rewrite (Ha w Hwa Hw). simpl. auto.
Qed.

Lemma fix_json_wf x : keeps_wf x.
Proof.
  induction x as [| | |f| |l IH|d IH] using json_nested_ind;
    intros y Hwf Hy; try (simpl in Hy; injection Hy as <-; reflexivity).
  - simpl in Hy. destruct (int_of_float f) as [i|e]; [|discriminate].
    simpl in Hy. destruct (int_eq_float i f); injection Hy as <-; reflexivity.
  - apply fix_json_list in Hy. destruct Hy as (r & Hr & ->).
    simpl. eapply keeps_wf_list; eauto.
  - apply fix_json_dict in Hy. destruct Hy as (r & Hr & ->).
    simpl in Hwf. apply andb_true_iff in Hwf. destruct Hwf as [Hu Hwd].
    simpl. rewrite (fix_dict_items_unique _ _ _ Hu Hr). simpl.
    eapply keeps_wf_dict; eauto.
Qed.

Lemma extras_free_app p q :
  extras_free (p ++ q) = extras_free p && extras_free q.
Proof. unfold extras_free. apply forallb_app. Qed.

(** A tree that the pass leaves alone has no droppable empty collection. *)
Lemma fixed_point_no_droppable_empty y :
  wf_json y = true -> __fix_json y = Returns y -> no_droppable_empty y.
Proof.
  intros Hwf Hy p k v Hp Hat He.
  rewrite extras_free_app in Hp. apply andb_true_iff in Hp.
  destruct Hp as [Hp Hk]. simpl in Hk. rewrite andb_true_r in Hk.
  apply negb_true_iff in Hk.
  apply json_at_key in Hat. destruct Hat as (d & Hd & Hg).
  destruct (fix_json_at_dict y y p d k v Hwf Hy Hp Hd Hg)
    as (r & Hu & Hr & Hy' & _).
  assert (r = d) by congruence. subst r.
  pose proof (fix_dict_items_get __fix_json d d k Hu Hr) as Hget.
  rewrite Hg, Hk in Hget. simpl in Hget.
  rewrite (should_include_empty k v He) in Hget.
  destruct (str_in k allowed_empty_collections); [reflexivity | discriminate].
Qed.

(** C2, as stated, fails: the emptiness test looks at a value before its own
    null-valued keys are dropped, so [{"a": {"b": None}}] becomes
    [{"a": {}}] after one pass and [{}] after two. *)
Lemma fix_json_not_idempotent :
  __fix_json nested_null = Returns (JDict [("a", JDict [])])
  /\ __fix_json (JDict [("a", JDict [])]) = Returns (JDict [])
  /\ JDict [] <> JDict [("a", JDict [])].
Proof. repeat split. discriminate. Qed.

(** C2, amended: a second pass changes nothing exactly when the first pass
    left no empty dict or list under a key that is neither on the allow-list
    nor ['extras'] (outside ['extras'] values).  A dict child that becomes
    empty only through the pass is such a leftover and goes with the next
    pass. *)
Theorem fix_json_idempotent_iff (x y : json) :
  wf_json x = true ->
  __fix_json x = Returns y ->
  (__fix_json y = Returns y <-> no_droppable_empty y).
Proof.
  intros Hwf Hy. split.
  - apply fixed_point_no_droppable_empty. exact (fix_json_wf x y Hwf Hy).
  - exact (fix_json_settles x y Hwf Hy).
Qed.

Lemma fix_json_idempotent_iff_witness :
  __fix_json material_with_extras = Returns material_fixed
  /\ (__fix_json material_fixed = Returns material_fixed
      <-> no_droppable_empty material_fixed).
Proof.
  split; [reflexivity|].
  apply (fix_json_idempotent_iff material_with_extras material_fixed);
    reflexivity.
Defined.

(** * Properties of the export controller *)

Section Running.

Variable World : Type.

Lemma bind_run {A B} (m : M World A) (k : A -> M World B) st :
  bind m k st =
  match m st with
  | (st', Returns a) => k a st'
  | (st', Raises e) => (st', Raises e)
  end.
Proof. reflexivity. Qed.

Lemma bind_returned {A B} (m : M World A) (k : A -> M World B) st st' b :
  bind m k st = (st', Returns b) ->
  exists s a, m st = (s, Returns a) /\ k a s = (st', Returns b).
Proof.
  unfold bind. destruct (m st) as [s [a|e]]; [eauto | discriminate].
Qed.

Lemma bind_id {A} (m : M World A) st : bind m (fun a => ret a) st = m st.
Proof. unfold bind, ret. now destruct (m st) as [s [a|e]]. Qed.

Lemma with_console_nil (st : host World) : with_console st [] = st.
Proof. destruct st. unfold with_console. simpl. now rewrite app_nil_r. Qed.

Lemma with_console_app (st : host World) a b :
  with_console (with_console st a) b = with_console st (a ++ b).
Proof. unfold with_console. simpl. now rewrite app_assoc. Qed.

Lemma emit_run ev (st : host World) : emit ev st = (with_console st [ev], Returns tt).
Proof. reflexivity. Qed.

Lemma for_each_emit {A} (f : A -> event) items (st : host World) :
  for_each World items (fun x => emit (f x)) st =
  (with_console st (map f items), Returns tt).
Proof.
  revert st. induction items as [|x items IH]; intros st; simpl.
  - unfold ret. now rewrite with_console_nil.
  - rewrite bind_run, emit_run, IH, with_console_app. reflexivity.
Qed.

(** ** Computations that leave the timeline alone *)

Lemma frame_stable_ret {A} (a : A) : frame_stable (ret (World := World) a).
Proof. intros st. reflexivity. Qed.

Lemma frame_stable_raise {A} e : frame_stable (raise (World := World) (A := A) e).
Proof. intros st. reflexivity. Qed.

Lemma frame_stable_lift {A} (o : outcome A) : frame_stable (lift (World := World) o).
Proof. intros st. reflexivity. Qed.

Lemma frame_stable_get {A} (f : host World -> A) : frame_stable (get f).
Proof. intros st. reflexivity. Qed.

Lemma frame_stable_read {A} (f : export_settings -> A) :
  frame_stable (read (World := World) f).
Proof. intros st. reflexivity. Qed.

Lemma frame_stable_emit ev : frame_stable (emit (World := World) ev).
Proof. intros st. reflexivity. Qed.

Lemma frame_stable_bind {A B} (m : M World A) (k : A -> M World B) :
  frame_stable m -> (forall a, frame_stable (k a)) -> frame_stable (bind m k).
Proof.
  intros Hm Hk st. unfold bind. specialize (Hm st).
  destruct (m st) as [s [a|e]]; simpl in *; [|exact Hm].
  now rewrite Hk.
Qed.

Lemma frame_stable_try_except {A} (m : M World A) cls handler :
  frame_stable m -> (forall e, frame_stable (handler e)) ->
  frame_stable (try_except m cls handler).
Proof.
  intros Hm Hh st. unfold try_except. specialize (Hm st).
  destruct (m st) as [s [a|e]]; simpl in *; [exact Hm|].
  destruct (isinstance e cls); simpl; [|exact Hm].
  now rewrite Hh.
Qed.

Lemma frame_stable_for_each {A} (items : list A) body :
  (forall x, frame_stable (body x)) -> frame_stable (for_each World items body).
Proof.
  intros Hb. induction items as [|x items IH]; simpl.
  - apply frame_stable_ret.
  - apply frame_stable_bind; auto.
Qed.

End Running.

Create HintDb stable.

#[export] Hint Resolve frame_stable_ret frame_stable_raise frame_stable_lift
  frame_stable_get frame_stable_read frame_stable_emit frame_stable_for_each
  : stable.

(** Split a sequence of statements into its steps. *)
Ltac stable_steps :=
  repeat first
    [ solve [auto with stable]
    | solve [unfold print_console, print_newline, print_tb, progress_begin,
             progress_update, progress_end; auto with stable]
    | apply frame_stable_bind; [|intros]
    | apply frame_stable_try_except; [|intros]
    | apply frame_stable_for_each; intros
    | match goal with
      | |- frame_stable (if ?b then _ else _) => destruct b
      | |- frame_stable (match ?x with _ => _ end) => destruct x
      end ].

Section Stability.

Variable World : Type.
Variable Obj : Type.
Variable ext : collaborators World Obj.
Hypothesis quiet : timeline_untouched ext.

Lemma frame_stable_notify_start : frame_stable (__notify_start World).
Proof. unfold __notify_start. stable_steps. Qed.

Lemma frame_stable_notify_end elapsed :
  frame_stable (__notify_end World Obj ext elapsed).
Proof. unfold __notify_end. stable_steps. Qed.

Lemma frame_stable_gather_gltf exporter :
  frame_stable (__gather_gltf World Obj ext exporter).
Proof. destruct quiet. unfold __gather_gltf. stable_steps. Qed.

Lemma frame_stable_create_buffer exporter :
  frame_stable (__create_buffer World Obj ext exporter).
Proof. destruct quiet. unfold __create_buffer. stable_steps. Qed.

Lemma frame_stable_export : frame_stable (__export World Obj ext).
Proof.
  pose proof frame_stable_gather_gltf. pose proof frame_stable_create_buffer.
  destruct quiet. unfold __export. stable_steps.
Qed.

Lemma frame_stable_subprocess_run_check argv :
  frame_stable (subprocess_run_check World Obj ext argv).
Proof.
  intros st. unfold subprocess_run_check.
  pose proof (tu_spawn _ _ _ quiet argv st) as H.
  destruct (spawn ext argv st) as [s [code|e]]; simpl in *; [|exact H].
  now destruct (code =? 0).
Qed.

Lemma frame_stable_postprocess :
  frame_stable (__postprocess_with_gltfpack World Obj ext).
Proof.
  pose proof frame_stable_subprocess_run_check.
  destruct quiet.
  unfold __postprocess_with_gltfpack, gltfpack_makedirs, gltfpack_run.
  stable_steps.
Qed.

Lemma frame_stable_write_file json buffer :
  frame_stable (__write_file World Obj ext json buffer).
Proof.
  pose proof frame_stable_postprocess.
  destruct quiet. unfold __write_file, write_attempt, report_assertion.
  stable_steps.
Qed.

End Stability.

(** ** Buffer creation *)

Section Buffer.

Variable World : Type.
Variable Obj : Type.
Variable ext : collaborators World Obj.

(** C10: when the format is not ['GLB'], [__create_buffer] finalises the
    buffer for a data URI or for the sibling file and returns the empty byte
    string, whatever [finalize_buffer] returned (an exception of
    [finalize_buffer] goes through); when the format is ['GLB'] it returns
    what [finalize_buffer(directory, is_glb=True)] returns. *)
Theorem create_buffer_by_format (exporter : Obj) (st : host World) :
  (String.eqb (gltf_format (settings st)) "GLB" = false ->
   forall st' r,
     finalize_buffer ext exporter (gltf_filedirectory (settings st))
       (if String.eqb (gltf_format (settings st)) "GLTF_EMBEDDED" then None
        else Some (gltf_binaryfilename (settings st))) false st = (st', r) ->
     __create_buffer World Obj ext exporter st =
     (st', match r with Returns _ => Returns [] | Raises e => Raises e end))
  /\ (String.eqb (gltf_format (settings st)) "GLB" = true ->
      __create_buffer World Obj ext exporter st =
      finalize_buffer ext exporter (gltf_filedirectory (settings st)) None true st).
Proof.
  split.
  - intros Hfmt st' r Hfin. unfold __create_buffer.
    rewrite bind_run. unfold read at 1. rewrite Hfmt.
    rewrite bind_run. unfold read at 1.
    destruct (String.eqb (gltf_format (settings st)) "GLTF_EMBEDDED").
    + rewrite bind_run. unfold read at 1. rewrite bind_run, Hfin.
      now destruct r.
    + rewrite bind_run. unfold read at 1. rewrite bind_run. unfold read at 1.
      rewrite bind_run, Hfin. now destruct r.
  - intros Hfmt. unfold __create_buffer.
    rewrite bind_run. unfold read at 1. rewrite Hfmt.
    rewrite bind_run. unfold read at 1. apply bind_id.
Qed.

End Buffer.

Lemma create_buffer_by_format_witness :
  let ext := Sample.collaborators_with Sample.no_hook Sample.write_ok
               (Sample.launch_exits 0) in
  let embedded := Sample.host_with (Sample.settings_with true false "GLTF_EMBEDDED") in
  let glb := Sample.host_with (Sample.settings_with true false "GLB") in
  __create_buffer unit nat ext 0%nat embedded = (embedded, Returns [])
  /\ __create_buffer unit nat ext 0%nat glb = (glb, Returns [x67; x6c; x54; x46]).
Proof.
  intros ext embedded glb. split.
  - apply (proj1 (create_buffer_by_format unit nat ext 0%nat embedded)
             eq_refl embedded (Returns [])). reflexivity.
  - rewrite (proj2 (create_buffer_by_format unit nat ext 0%nat glb) eq_refl).
    reflexivity.
Defined.

(** ** Writing the file *)

Section Writing.

Variable World : Type.
Variable Obj : Type.
Variable ext : collaborators World Obj.

Lemma report_assertion_run e (st : host World) :
  report_assertion World e st = (with_console st (diagnostics e), Raises e).
Proof.
  unfold report_assertion, diagnostics, print_tb, print_console.
  rewrite bind_run, emit_run, bind_run.
  rewrite (for_each_emit World
             (fun tbi => PrintConsole "ERROR"
                ("An error occurred on line " ++ str_int (tb_line tbi)
                 ++ " in statement " ++ tb_text tbi))).
  rewrite bind_run, emit_run. unfold raise.
  now rewrite !with_console_app.
Qed.

(** C8: whatever the write step raises, [__write_file] raises the same
    exception.  For an [AssertionError] it first prints the traceback, one
    line per traceback entry with the entry's line number and statement,
    and the message; for any other exception it prints nothing and leaves
    the host as the failing call left it.  A write that returns is not
    reported either. *)
Theorem write_file_diagnostics (json : json) (buffer : bytes) (st st' : host World) :
  (forall e, write_attempt World Obj ext json buffer st = (st', Raises e) ->
     (isinstance e AssertionError = true ->
      __write_file World Obj ext json buffer st =
      (with_console st' (diagnostics e), Raises e))
     /\ (isinstance e AssertionError = false ->
         __write_file World Obj ext json buffer st = (st', Raises e)))
  /\ (forall a, write_attempt World Obj ext json buffer st = (st', Returns a) ->
        __write_file World Obj ext json buffer st = (st', Returns a)).
Proof.
  split.
  - intros e Hw. split; intros He; unfold __write_file, try_except;
      rewrite Hw, He; [apply report_assertion_run | reflexivity].
  - intros a Hw. unfold __write_file, try_except. now rewrite Hw.
Qed.

End Writing.

Lemma write_file_diagnostics_witness :
  let st := Sample.host_with (Sample.settings_with true false "GLB") in
  __write_file unit nat
    (Sample.collaborators_with Sample.no_hook Sample.write_asserts (Sample.launch_exits 0))
    Sample.document [] st =
    (with_console st (diagnostics Sample.malformed), Raises Sample.malformed)
  /\ __write_file unit nat
       (Sample.collaborators_with Sample.no_hook Sample.write_fails (Sample.launch_exits 0))
       Sample.document [] st = (st, Raises Sample.disk_full).
Proof.
  intros st. split.
  - apply (proj1 (write_file_diagnostics unit nat _ Sample.document [] st st)
             Sample.malformed); reflexivity.
  - apply (proj1 (write_file_diagnostics unit nat _ Sample.document [] st st)
             Sample.disk_full); reflexivity.
Defined.

(** ** The gltfpack command line *)

Section Gltfpack.

Variable World : Type.
Variable Obj : Type.
Variable ext : collaborators World Obj.

(** The option list in closed form; the position flag is whatever the three
    cases of the [match] statement append. *)
Lemma gltfpack_options_closed (s : export_settings) :
  gltfpack_options World Obj ext s =
  flag_if (gltf_gltfpack_tc s) "-tc"
  ++ ["-tq"; format_value World Obj ext (gltf_gltfpack_tq s);
      "-si"; format_value World Obj ext (gltf_gltfpack_si s)]
  ++ flag_if (gltf_gltfpack_sa s) "-sa"
  ++ flag_if (gltf_gltfpack_slb s) "-slb"
  ++ ["-vp"; format_value World Obj ext (gltf_gltfpack_vp s);
      "-vt"; format_value World Obj ext (gltf_gltfpack_vt s);
      "-vn"; format_value World Obj ext (gltf_gltfpack_vn s);
      "-vc"; format_value World Obj ext (gltf_gltfpack_vc s)]
  ++ (if String.eqb (gltf_gltfpack_vpi s) "Integer" then ["-vpi"]
      else if String.eqb (gltf_gltfpack_vpi s) "Normalized" then ["-vpn"]
      else if String.eqb (gltf_gltfpack_vpi s) "Floating-point" then ["-vpf"]
      else [])
  ++ flag_if (gltf_gltfpack_noq s) "-noq".
Proof.
  unfold gltfpack_options, append, flag_if.
  destruct (gltf_gltfpack_tc s), (gltf_gltfpack_sa s), (gltf_gltfpack_slb s),
    (gltf_gltfpack_noq s),
    (String.eqb (gltf_gltfpack_vpi s) "Integer"),
    (String.eqb (gltf_gltfpack_vpi s) "Normalized"),
    (String.eqb (gltf_gltfpack_vpi s) "Floating-point"); reflexivity.
Qed.

(** C7: once the output directory is there, the tool is run with the binary
    path, then [-tc] if set, [-tq n], [-si n], [-sa] if set, [-slb] if set,
    [-vp n], [-vt n], [-vn n], [-vc n], the one position flag that belongs
    to the position-encoding choice, [-noq] if set, and last
    [-i input -o output]. *)
Theorem gltfpack_argument_order (st st1 : host World) :
  let path := gltf_filepath (settings st) in
  let directory := path_join ext (path_dirname ext path) "gltfpacked" in
  let s := settings st1 in
  gltfpack_makedirs World Obj ext directory st = (st1, Returns tt) ->
  (gltf_gltfpack_vpi s = "Integer" \/ gltf_gltfpack_vpi s = "Normalized"
   \/ gltf_gltfpack_vpi s = "Floating-point") ->
  exists position_flag,
    (gltf_gltfpack_vpi s = "Integer" /\ position_flag = "-vpi"
     \/ gltf_gltfpack_vpi s = "Normalized" /\ position_flag = "-vpn"
     \/ gltf_gltfpack_vpi s = "Floating-point" /\ position_flag = "-vpf")
    /\ __postprocess_with_gltfpack World Obj ext st =
       gltfpack_run World Obj ext
         ([path_join ext (gltfpack_path_ui st) "gltfpack"]
          ++ flag_if (gltf_gltfpack_tc s) "-tc"
          ++ ["-tq"; format_value World Obj ext (gltf_gltfpack_tq s);
              "-si"; format_value World Obj ext (gltf_gltfpack_si s)]
          ++ flag_if (gltf_gltfpack_sa s) "-sa"
          ++ flag_if (gltf_gltfpack_slb s) "-slb"
          ++ ["-vp"; format_value World Obj ext (gltf_gltfpack_vp s);
              "-vt"; format_value World Obj ext (gltf_gltfpack_vt s);
              "-vn"; format_value World Obj ext (gltf_gltfpack_vn s);
              "-vc"; format_value World Obj ext (gltf_gltfpack_vc s)]
          ++ [position_flag]
          ++ flag_if (gltf_gltfpack_noq s) "-noq"
          ++ ["-i"; path; "-o";
              path_join ext directory
                (fst (path_splitext ext (path_basename ext path))
                 ++ snd (path_splitext ext (path_basename ext path)))%string])
         st1.
Proof.
  intros path directory s Hdir Hvpi.
  assert (Hrun : forall flag,
    (if String.eqb (gltf_gltfpack_vpi s) "Integer" then ["-vpi"]
     else if String.eqb (gltf_gltfpack_vpi s) "Normalized" then ["-vpn"]
     else if String.eqb (gltf_gltfpack_vpi s) "Floating-point" then ["-vpf"]
     else []) = [flag] ->
    __postprocess_with_gltfpack World Obj ext st =
    gltfpack_run World Obj ext
      ([path_join ext (gltfpack_path_ui st) "gltfpack"]
       ++ flag_if (gltf_gltfpack_tc s) "-tc"
       ++ ["-tq"; format_value World Obj ext (gltf_gltfpack_tq s);
           "-si"; format_value World Obj ext (gltf_gltfpack_si s)]
       ++ flag_if (gltf_gltfpack_sa s) "-sa"
       ++ flag_if (gltf_gltfpack_slb s) "-slb"
       ++ ["-vp"; format_value World Obj ext (gltf_gltfpack_vp s);
           "-vt"; format_value World Obj ext (gltf_gltfpack_vt s);
           "-vn"; format_value World Obj ext (gltf_gltfpack_vn s);
           "-vc"; format_value World Obj ext (gltf_gltfpack_vc s)]
       ++ [flag]
       ++ flag_if (gltf_gltfpack_noq s) "-noq"
       ++ ["-i"; path; "-o";
           path_join ext directory
             (fst (path_splitext ext (path_basename ext path))
              ++ snd (path_splitext ext (path_basename ext path)))%string])
      st1).
  { intros flag Hflag. unfold __postprocess_with_gltfpack.
    rewrite bind_run. unfold get at 1. rewrite bind_run. unfold read at 1.
    fold path. fold directory. rewrite bind_run, Hdir.
    rewrite bind_run. unfold read at 1. fold s.
    rewrite gltfpack_options_closed, Hflag.
    do 2 f_equal. rewrite <- !app_assoc. reflexivity. }
  destruct Hvpi as [H|[H|H]].
  - exists "-vpi". split; [auto|]. apply Hrun. now rewrite H.
  - exists "-vpn". split; [auto|]. apply Hrun. now rewrite H.
  - exists "-vpf". split; [auto|]. apply Hrun. now rewrite H.
Qed.

End Gltfpack.

Lemma gltfpack_argument_order_witness :
  let ext := Sample.collaborators_with Sample.no_hook Sample.write_ok
               (Sample.launch_exits 0) in
  let st := Sample.host_with (Sample.settings_with true true "GLB") in
  exists position_flag,
    (gltf_gltfpack_vpi (settings st) = "Integer" /\ position_flag = "-vpi"
     \/ gltf_gltfpack_vpi (settings st) = "Normalized" /\ position_flag = "-vpn"
     \/ gltf_gltfpack_vpi (settings st) = "Floating-point" /\ position_flag = "-vpf")
    /\ __postprocess_with_gltfpack unit nat ext st =
       gltfpack_run unit nat ext
         ["/opt/gltfpack/gltfpack"; "-tc"; "-tq"; "8"; "-si"; "1.5"; "-slb";
          "-vp"; "14"; "-vt"; "12"; "-vn"; "8"; "-vc"; "8"; position_flag;
          "-i"; "/tmp/out/scene.glb"; "-o"; "/tmp/out/gltfpacked/scene.glb"] st.
Proof.
  intros ext st.
  exact (gltfpack_argument_order unit nat ext st st eq_refl
           (or_intror (or_introl eq_refl))).
Defined.

(** ** Failures of the gltfpack run *)

Lemma oserror_is_no_other c :
  issubclass c OSError = true ->
  issubclass c AssertionError = false /\ issubclass c CalledProcessError = false.
Proof.
  induction c; simpl; try discriminate; auto.
Qed.

Section GltfpackFailure.

Variable World : Type.
Variable Obj : Type.
Variable ext : collaborators World Obj.

(** A non-zero exit status is logged and goes no further. *)
Lemma gltfpack_nonzero_exit_logged argv (st st' : host World) code :
  spawn ext argv st = (st', Exited code) -> code <> 0 ->
  gltfpack_run World Obj ext argv st =
  (with_console st' [PrintConsole "ERROR" "Calling gltfpack was not successful"],
   Returns tt).
Proof.
  intros Hs Hc. unfold gltfpack_run, try_except, subprocess_run_check.
  rewrite Hs. apply Z.eqb_neq in Hc. rewrite Hc. reflexivity.
Qed.

Lemma gltfpack_zero_exit argv (st st' : host World) :
  spawn ext argv st = (st', Exited 0) ->
  gltfpack_run World Obj ext argv st = (st', Returns tt).
Proof.
  intros Hs. unfold gltfpack_run, try_except, subprocess_run_check.
  now rewrite Hs.
Qed.

Lemma gltfpack_launch_failure argv (st st' : host World) e :
  spawn ext argv st = (st', LaunchFailed e) ->
  isinstance e OSError = true ->
  gltfpack_run World Obj ext argv st = (st', Raises e).
Proof.
  intros Hs He. unfold gltfpack_run, try_except, subprocess_run_check.
  rewrite Hs. unfold isinstance in *.
  now rewrite (proj2 (oserror_is_no_other _ He)).
Qed.

(** C4 does not hold of the code: when the primary file has been written
    and the tool cannot be launched (its binary is missing), the [OSError]
    of the launch is not a [CalledProcessError], so
    [__postprocess_with_gltfpack] lets it through without a log line, and
    [__write_file], which handles [AssertionError] only, raises it too. *)
Theorem gltfpack_launch_failure_propagates
    (json : json) (buffer : bytes) (st st1 st2 st3 : host World) (e : exn) :
  save_gltf ext json buffer st = (st1, Returns tt) ->
  gltf_use_gltfpack (settings st1) = true ->
  gltfpack_makedirs World Obj ext
    (path_join ext (path_dirname ext (gltf_filepath (settings st1))) "gltfpacked")
    st1 = (st2, Returns tt) ->
  (forall argv, spawn ext argv st2 = (st3, LaunchFailed e)) ->
  isinstance e OSError = true ->
  __postprocess_with_gltfpack World Obj ext st1 = (st3, Raises e)
  /\ __write_file World Obj ext json buffer st = (st3, Raises e).
Proof.
  intros Hsave Huse Hdir Hspawn He.
  assert (Hpost : __postprocess_with_gltfpack World Obj ext st1 = (st3, Raises e)).
  { unfold __postprocess_with_gltfpack.
    rewrite bind_run. unfold get at 1. rewrite bind_run. unfold read at 1.
    rewrite bind_run, Hdir. rewrite bind_run. unfold read at 1.
    now apply gltfpack_launch_failure. }
  split; [exact Hpost|].
  unfold __write_file, try_except, write_attempt.
  rewrite bind_run, Hsave, bind_run. unfold read at 1. rewrite Huse, Hpost.
  unfold isinstance in *. now rewrite (proj1 (oserror_is_no_other _ He)).
Qed.

End GltfpackFailure.

Lemma gltfpack_launch_failure_propagates_witness :
  let ext := Sample.collaborators_with Sample.no_hook Sample.write_ok
               Sample.launch_fails in
  let st := Sample.host_with (Sample.settings_with true true "GLB") in
  __postprocess_with_gltfpack unit nat ext st = (st, Raises Sample.tool_missing)
  /\ __write_file unit nat ext Sample.document [] st = (st, Raises Sample.tool_missing).
Proof.
  intros ext st.
  apply (gltfpack_launch_failure_propagates unit nat ext Sample.document []
           st st st st Sample.tool_missing); reflexivity.
Defined.

(** The whole export at that input: the file is written, the missing tool
    aborts [save], nothing is logged about it and the frame stays at 0. *)
Example save_with_missing_gltfpack :
  let ext := Sample.collaborators_with Sample.no_hook Sample.write_ok
               Sample.launch_fails in
  let st := Sample.host_with (Sample.settings_with false true "GLB") in
  snd (save unit nat ext st) = Raises Sample.tool_missing
  /\ frame_current (fst (save unit nat ext st)) = 0
  /\ console (fst (save unit nat ext st)) =
     [PrintConsole "INFO" "Starting glTF 2.0 export";
      ProgressBegin 0 100; ProgressUpdate 0].
Proof. repeat split. Qed.

Example save_with_failing_gltfpack :
  let ext := Sample.collaborators_with Sample.no_hook Sample.write_ok
               (Sample.launch_exits 1) in
  let st := Sample.host_with (Sample.settings_with false true "GLB") in
  snd (save unit nat ext st) = Returns ["FINISHED"]
  /\ frame_current (fst (save unit nat ext st)) = 7
  /\ In (PrintConsole "ERROR" "Calling gltfpack was not successful")
        (console (fst (save unit nat ext st))).
Proof. repeat split. simpl. auto. Qed.

(** ** The timeline position *)

Section Frame.

Variable World : Type.
Variable Obj : Type.
Variable ext : collaborators World Obj.

Lemma bind_stable_cases {A B} (m : M World A) (k : A -> M World B) st st' o :
  frame_stable m ->
  bind m k st = (st', o) ->
  (exists s a, frame_current s = frame_current st /\ k a s = (st', o))
  \/ (exists e, o = Raises e /\ frame_current st' = frame_current st).
Proof.
  intros Hm H. unfold bind in H. specialize (Hm st).
  destruct (m st) as [s [a|e]]; simpl in Hm.
  - left. eauto.
  - right. injection H as <- <-. eauto.
Qed.

(** After a normal return, with the flag off when it is read again at the
    end, the frame is the one captured at entry. *)
Lemma save_restores_on_success (st s0 st' : host World) r :
  ensure_object_mode World Obj ext st = (s0, Returns tt) ->
  save World Obj ext st = (st', Returns r) ->
  gltf_current_frame (settings st') = false ->
  frame_current st' = frame_current s0.
Proof.
  intros Hmode H Hflag. unfold save in H.
  rewrite bind_run, Hmode in H.
  rewrite bind_run in H. unfold get at 1 in H.
  do 7 (apply bind_returned in H; destruct H as (? & ? & _ & H)).
  match type of H with (match ?x with _ => _ end) _ = _ => destruct x end.
  do 5 (apply bind_returned in H; destruct H as (? & ? & _ & H)).
  rewrite bind_run in H. unfold read at 1 in H.
  match type of H with context [gltf_current_frame (settings ?s)] =>
    destruct (gltf_current_frame (settings s)) eqn:Hend
  end; simpl in H; injection H as <- _.
  - simpl in Hflag. congruence.
  - reflexivity.
Qed.

Hypothesis quiet : timeline_untouched ext.

(** The stages between the two frame changes leave the frame where it is,
    however they end. *)
Ltac next_stage H :=
  apply bind_stable_cases in H;
  [ destruct H as [(? & ? & ? & H) | (? & ? & ?)];
    [|simpl frame_current in *; congruence]
  | try solve [stable_steps] ].

Lemma save_keeps_frame_when_current (st s0 st' : host World) o :
  ensure_object_mode World Obj ext st = (s0, Returns tt) ->
  save World Obj ext st = (st', o) ->
  gltf_current_frame (settings s0) = true ->
  frame_current st' = frame_current s0.
Proof.
  intros Hmode H Hflag. unfold save in H.
  pose proof (frame_stable_notify_start World) as Hns.
  pose proof (frame_stable_notify_end World Obj ext) as Hne.
  pose proof (frame_stable_export World Obj ext quiet) as Hex.
  pose proof (frame_stable_write_file World Obj ext quiet) as Hwf.
  pose proof (tu_time_time _ _ _ quiet) as Htime.
  pose proof (tu_call _ _ _ quiet) as Hcall.
  rewrite bind_run, Hmode in H.
  rewrite bind_run in H. unfold get at 1 in H.
  rewrite bind_run in H. unfold read at 1 in H. rewrite Hflag in H.
  rewrite bind_run in H. simpl negb in H. unfold ret at 1 in H.
  do 5 next_stage H.
  match type of H with (match ?x with _ => _ end) _ = _ => destruct x end.
  do 5 next_stage H.
  rewrite bind_run in H. unfold read at 1 in H.
  match type of H with context [gltf_current_frame (settings ?s)] =>
    destruct (gltf_current_frame (settings s))
  end; simpl in H; injection H as <- _; simpl; congruence.
Qed.

Lemma save_leaves_frame_zero_on_raise (st s0 st' : host World) e :
  ensure_object_mode World Obj ext st = (s0, Returns tt) ->
  save World Obj ext st = (st', Raises e) ->
  gltf_current_frame (settings s0) = false ->
  frame_current st' = 0.
Proof.
  intros Hmode H Hflag. unfold save in H.
  pose proof (frame_stable_notify_start World) as Hns.
  pose proof (frame_stable_notify_end World Obj ext) as Hne.
  pose proof (frame_stable_export World Obj ext quiet) as Hex.
  pose proof (frame_stable_write_file World Obj ext quiet) as Hwf.
  pose proof (tu_time_time _ _ _ quiet) as Htime.
  pose proof (tu_call _ _ _ quiet) as Hcall.
  rewrite bind_run, Hmode in H.
  rewrite bind_run in H. unfold get at 1 in H.
  rewrite bind_run in H. unfold read at 1 in H. rewrite Hflag in H.
  rewrite bind_run in H. simpl negb in H. cbv iota in H.
  unfold frame_set at 1 in H.
  do 5 next_stage H.
  match type of H with (match ?x with _ => _ end) _ = _ => destruct x end.
  do 5 next_stage H.
  rewrite bind_run in H. unfold read at 1 in H.
  match type of H with context [gltf_current_frame (settings ?s)] =>
    destruct (gltf_current_frame (settings s))
  end; simpl in H; discriminate.
Qed.

End Frame.

(** C1, as stated, fails: [save] has no handler around the stages, so when
    one of them raises (here the writer, on a full disk) the exception
    leaves [save] with the timeline still at frame 0 instead of the frame
    it had at entry. *)
Lemma save_frame_lost_on_raise :
  let ext := Sample.collaborators_with Sample.no_hook Sample.write_fails
               (Sample.launch_exits 0) in
  let st := Sample.host_with (Sample.settings_with false false "GLB") in
  frame_current st = 7
  /\ snd (save unit nat ext st) = Raises Sample.disk_full
  /\ frame_current (fst (save unit nat ext st)) = 0.
Proof. repeat split. Qed.

(** C1, amended: let [s0] be the host once [save] has left edit mode, where
    it captures the frame.  If [save] returns and [gltf_current_frame] is
    off when [save] reads it again before returning, the frame is the
    captured one.  If no collaborator moves the timeline: with
    [gltf_current_frame] on, the frame is the captured one however [save]
    ends; with it off, an exception leaves [save] with the frame at 0,
    where [save] had put it; nothing is restored on that path. *)
Theorem save_frame_position
    (World Obj : Type) (ext : collaborators World Obj)
    (st s0 st' : host World) (o : outcome (list string)) :
  ensure_object_mode World Obj ext st = (s0, Returns tt) ->
  save World Obj ext st = (st', o) ->
  (forall r, o = Returns r ->
     gltf_current_frame (settings st') = false ->
     frame_current st' = frame_current s0)
  /\ (timeline_untouched ext ->
      (gltf_current_frame (settings s0) = true ->
       frame_current st' = frame_current s0)
      /\ (gltf_current_frame (settings s0) = false ->
          forall e, o = Raises e -> frame_current st' = 0)).
Proof.
  intros Hmode Hsave. split.
  - intros r -> Hflag. eapply save_restores_on_success; eauto.
  - intros quiet. split.
    + intros Hflag. eapply save_keeps_frame_when_current; eauto.
    + intros Hflag e ->. eapply save_leaves_frame_zero_on_raise; eauto.
Qed.

Lemma sample_timeline_untouched hook write launch :
  (forall c, frame_stable (hook c)) ->
  (forall j b, frame_stable (write j b)) ->
  (forall argv st, frame_current (fst (launch argv st)) = frame_current st) ->
  timeline_untouched (Sample.collaborators_with hook write launch).
Proof.
  intros Hh Hw Hl. constructor; simpl; intros; auto; intros ?; reflexivity.
Qed.

Lemma save_frame_position_witness :
  let ok := Sample.collaborators_with Sample.no_hook Sample.write_ok
              (Sample.launch_exits 0) in
  let bad := Sample.collaborators_with Sample.no_hook Sample.write_fails
               (Sample.launch_exits 0) in
  let st := Sample.host_with (Sample.settings_with false false "GLB") in
  frame_current (fst (save unit nat ok st)) = 7
  /\ frame_current (fst (save unit nat bad st)) = 0.
Proof.
  intros ok bad st. split.
  - exact (proj1 (save_frame_position unit nat ok st
                    (fst (ensure_object_mode unit nat ok st))
                    (fst (save unit nat ok st)) (snd (save unit nat ok st))
                    eq_refl eq_refl)
                 ["FINISHED"] eq_refl eq_refl).
  - refine (proj2 (proj2 (save_frame_position unit nat bad st
                    (fst (ensure_object_mode unit nat bad st))
                    (fst (save unit nat bad st)) (snd (save unit nat bad st))
                    eq_refl eq_refl) _)
                 eq_refl Sample.disk_full eq_refl).
    apply sample_timeline_untouched; intros; try intros ?; reflexivity.
Defined.

(** * Further properties of the JSON clean-up *)

(** ** Lists *)

(** X1: a list is never shortened or reordered.  [__fix_json] returns on a
    list exactly when it returns on every element, and the result is the
    list of the cleaned elements, [None] and empty collections included. *)
Theorem fix_json_list_elementwise (l : list json) (y : json) :
  __fix_json (JList l) = Returns y <->
  exists r, y = JList r
            /\ Forall2 (fun a b => __fix_json a = Returns b) l r.
Proof.
  split.
  - intros H. apply fix_json_list in H. destruct H as (r & Hr & ->).
    exists r. split; [reflexivity|].
    revert r Hr. induction l as [|a l IH]; intros r Hr.
    + simpl in Hr. injection Hr as <-. constructor.
    + rewrite fix_list_items_cons in Hr.
      apply bind_returns in Hr. destruct Hr as (w & Hw & Hr).
      apply bind_returns in Hr. destruct Hr as (r' & Hr' & [= <-]).
      constructor; auto.
  - intros (r & -> & H). simpl.
    assert (Hr : fix_list_items __fix_json l [] = Returns r).
    { induction H as [|a b l r Hab Hlr IH]; [reflexivity|].
      rewrite fix_list_items_cons, Hab. simpl. now rewrite IH. }
    now rewrite Hr.
Qed.

Example fix_json_list_keeps_nulls :
  __fix_json (JList [JNull; JDict []; JList []; JFloat five])
  = Returns (JList [JNull; JDict []; JList []; JInt 5]).
Proof. reflexivity. Qed.

(** ** Keys *)

Lemma survives_spec k v :
  survives k v =
  (String.eqb k "extras" && negb (is_none v)) || __should_include_json_value k v.
Proof.
  unfold survives, __should_include_json_value.
  destruct (is_none v), (String.eqb k "extras"), (__is_empty_collection v),
    (str_in k allowed_empty_collections); reflexivity.
Qed.

Lemma fix_dict_items_survivors rec items r :
  unique_keys (keys items) = true ->
  fix_dict_items rec items [] = Returns r ->
  keys r = keys (filter (fun kv => survives (fst kv) (snd kv)) items).
Proof.
  revert r. induction items as [|[k v] items IH]; intros r Hu H.
  - simpl in H. now injection H as <-.
  - rewrite fix_dict_items_cons in H by exact Hu.
    simpl in Hu. apply andb_true_iff in Hu. destruct Hu as [_ Hu].
    simpl filter. rewrite survives_spec. simpl fst. simpl snd.
    destruct (String.eqb k "extras" && negb (is_none v)).
    + apply bind_returns in H. destruct H as (r' & Hr' & [= <-]).
      simpl. f_equal. auto.
    + destruct (__should_include_json_value k v); simpl in *.
      * apply bind_returns in H. destruct H as (w & _ & H).
        apply bind_returns in H. destruct H as (r' & Hr' & [= <-]).
        simpl. f_equal. auto.
      * auto.
Qed.

(** X2: the keys of a cleaned dict are the keys of the entries that
    survive, in their original order: an entry survives when its value is
    not [None] and it is the ['extras'] entry, or its value is not an empty
    collection, or its key is on the allow-list.  No key is added, moved or
    renamed. *)
Theorem fix_json_dict_keys (d r : dict) :
  wf_json (JDict d) = true ->
  __fix_json (JDict d) = Returns (JDict r) ->
  keys r = keys (filter (fun kv => survives (fst kv) (snd kv)) d).
Proof.
  intros Hwf H. apply fix_json_dict in H. destruct H as (r' & Hr & [= ->]).
  simpl in Hwf. apply andb_true_iff in Hwf. destruct Hwf as [Hu _].
  eapply fix_dict_items_survivors; eauto.
Qed.

Lemma fix_json_dict_keys_witness :
  keys [("extras", JDict [("note", JNull)]); ("pbr", JDict [("factor", JInt 1)])]
  = keys (filter (fun kv => survives (fst kv) (snd kv))
            [("name", JNull);
             ("extras", JDict [("note", JNull)]);
             ("pbr", JDict [("extras", JNull); ("factor", JInt 1)])]).
Proof.
  exact (fix_json_dict_keys _ _ (eq_refl : wf_json material_with_extras = true)
           (eq_refl : __fix_json material_with_extras = Returns material_fixed)).
Defined.

(** ** From the result back to the input *)

Lemma fix_json_dict_source x r :
  __fix_json x = Returns (JDict r) -> exists d, x = JDict d.
Proof.
  destruct x; simpl; try discriminate; eauto.
  - destruct (int_of_float f) as [i|e]; simpl; [|discriminate].
    destruct (int_eq_float i f); discriminate.
  - intros H. apply bind_returns in H. destruct H as (? & _ & H). discriminate.
Qed.

Lemma fix_json_list_source x r :
  __fix_json x = Returns (JList r) -> exists l, x = JList l.
Proof.
  destruct x; simpl; try discriminate; eauto.
  - destruct (int_of_float f) as [i|e]; simpl; [|discriminate].
    destruct (int_eq_float i f); discriminate.
  - intros H. apply bind_returns in H. destruct H as (? & _ & H). discriminate.
Qed.

Lemma fix_list_items_nth_back rec items r i w :
  fix_list_items rec items [] = Returns r ->
  nth_error r i = Some w ->
  exists v, nth_error items i = Some v /\ rec v = Returns w.
Proof.
  intros Hr Hn.
  assert (Hlt : (i < List.length items)%nat).
  { rewrite <- (fix_list_items_length rec items r Hr).
    apply nth_error_Some. congruence. }
  destruct (nth_error items i) as [v|] eqn:Hv.
  - destruct (fix_list_items_nth rec items r i v Hr Hv) as (w' & Hw' & Hn').
    exists v. split; [reflexivity | congruence].
  - apply nth_error_None in Hv. lia.
Qed.

Lemma fix_dict_items_get_back rec items r k w :
  unique_keys (keys items) = true ->
  fix_dict_items rec items [] = Returns r ->
  String.eqb k "extras" = false ->
  dict_get r k = Some w ->
  exists v, dict_get items k = Some v
            /\ __should_include_json_value k v = true
            /\ rec v = Returns w.
Proof.
  intros Hu Hr Hk Hg.
  rewrite (fix_dict_items_get rec items r k Hu Hr), Hk in Hg. simpl in Hg.
  destruct (dict_get items k) as [v|]; [|discriminate].
  destruct (__should_include_json_value k v) eqn:Hi; [|discriminate].
  simpl in Hg. destruct (rec v) as [w'|e] eqn:Hv; [|discriminate].
  injection Hg as ->. exists v. repeat split; assumption.
Qed.

Lemma kept_at_snoc_key p k v :
  kept_at (p ++ [Key k]) v = __should_include_json_value k v.
Proof.
  induction p as [|s p IH]; [reflexivity|].
  destruct s; (destruct p; [reflexivity | exact IH]).
Qed.

Lemma fix_json_at_back p : forall x y w,
  wf_json x = true ->
  __fix_json x = Returns y ->
  extras_free p = true ->
  json_at y p = Some w ->
  exists v, json_at x p = Some v /\ __fix_json v = Returns w
            /\ kept_at p v = true.
Proof.
  induction p as [|s p IH]; intros x y w Hwf Hfix Hfree Hat.
  - simpl in Hat. injection Hat as <-. exists x. auto.
  - simpl in Hfree. apply andb_true_iff in Hfree. destruct Hfree as [Hs Hfree].
    apply negb_true_iff in Hs.
    destruct s as [k|i].
    + destruct y as [| | | | | |r]; try discriminate. simpl in Hat.
      destruct (dict_get r k) as [u'|] eqn:Hg; [|discriminate].
      destruct (fix_json_dict_source x r Hfix) as [d ->].
      apply fix_json_dict in Hfix. destruct Hfix as (r' & Hr & [= <-]).
      assert (Hu : unique_keys (keys d) = true).
      { simpl in Hwf. now apply andb_true_iff in Hwf. }
      simpl in Hs.
      destruct (fix_dict_items_get_back _ d r k u' Hu Hr Hs Hg)
        as (u & Hdu & Hinc & Hfu).
      destruct (IH u u' w (wf_dict_get _ _ _ Hwf Hdu) Hfu Hfree Hat)
        as (v & Hv & Hfv & Hkept).
      exists v. simpl. rewrite Hdu. repeat split; auto.
      destruct p; [|exact Hkept].
      simpl in Hv. injection Hv as <-. exact Hinc.
    + destruct y as [| | | | |r|]; try discriminate. simpl in Hat.
      destruct (nth_error r i) as [u'|] eqn:Hn; [|discriminate].
      destruct (fix_json_list_source x r Hfix) as [l ->].
      apply fix_json_list in Hfix. destruct Hfix as (r' & Hr & [= <-]).
      destruct (fix_list_items_nth_back _ l r i u' Hr Hn) as (u & Hlu & Hfu).
      destruct (IH u u' w (wf_list_nth _ _ _ Hwf Hlu) Hfu Hfree Hat)
        as (v & Hv & Hfv & Hkept).
      exists v. simpl. rewrite Hlu. repeat split; auto.
Qed.

(** X3: cleaning commutes with taking a subtree.  At a path that enters no
    ['extras'] value, the result holds a node exactly when the input holds
    one there that is not a skipped dict entry, and the node of the result
    is the cleaned node of the input.  So the pass invents no position and
    moves nothing. *)
Theorem fix_json_subtree (x y : json) (p : path) (w : json) :
  wf_json x = true ->
  __fix_json x = Returns y ->
  extras_free p = true ->
  (json_at y p = Some w <->
   exists v, json_at x p = Some v /\ kept_at p v = true
             /\ __fix_json v = Returns w).
Proof.
  intros Hwf Hfix Hfree. split.
  - intros Hat.
    destruct (fix_json_at_back p x y w Hwf Hfix Hfree Hat) as (v & ? & ? & ?).
    eauto.
  - intros (v & Hv & Hkept & Hfv).
    destruct (fix_json_at p x y v Hwf Hfix Hfree Hv Hkept) as (w' & Hw' & Hy).
    congruence.
Qed.

Lemma fix_json_subtree_witness :
  json_at material_fixed [Key "pbr"] = Some (JDict [("factor", JInt 1)]) <->
  exists v, json_at material_with_extras [Key "pbr"] = Some v
            /\ kept_at [Key "pbr"] v = true
            /\ __fix_json v = Returns (JDict [("factor", JInt 1)]).
Proof.
  exact (fix_json_subtree material_with_extras material_fixed [Key "pbr"]
           (JDict [("factor", JInt 1)]) eq_refl eq_refl eq_refl).
Defined.

(** ** What the result never holds *)

(** X4: after the pass no dict key maps to [None], outside ['extras']
    values. *)
Theorem fix_json_leaves_no_null (x y : json) (p : path) (k : string) :
  wf_json x = true ->
  __fix_json x = Returns y ->
  extras_free (p ++ [Key k]) = true ->
  json_at y (p ++ [Key k]) <> Some JNull.
Proof.
  intros Hwf Hfix Hfree Hat.
  destruct (fix_json_at_back _ x y JNull Hwf Hfix Hfree Hat)
    as (v & _ & Hfv & Hkept).
  rewrite kept_at_snoc_key in Hkept.
  apply fix_json_is_none in Hfv. simpl in Hfv.
  unfold __should_include_json_value in Hkept. rewrite <- Hfv in Hkept.
  discriminate.
Qed.

Lemma fix_json_leaves_no_null_witness :
  json_at material_fixed ([Key "pbr"] ++ [Key "factor"]) <> Some JNull.
Proof.
  exact (fix_json_leaves_no_null material_with_extras material_fixed
           [Key "pbr"] "factor" eq_refl eq_refl eq_refl).
Defined.

Lemma fix_json_float_result v f :
  __fix_json v = Returns (JFloat f) ->
  v = JFloat f /\ is_finite f = true /\ forall z, ~ integral f z.
Proof.
  destruct v; simpl; try discriminate.
  - destruct (int_of_float f0) as [i|e] eqn:Hi; simpl; [|discriminate].
    destruct (int_eq_float i f0) eqn:He; [discriminate|].
    intros [= <-]. split; [reflexivity|]. split.
    + destruct f0; try discriminate; reflexivity.
    + intros z Hz. apply int_of_float_integral in Hz. destruct Hz as [Hz1 Hz2].
      congruence.
  - intros H. apply bind_returns in H. destruct H as (? & _ & H). discriminate.
  - intros H. apply bind_returns in H. destruct H as (? & _ & H). discriminate.
Qed.

(** X5: after the pass every float outside ['extras'] values is finite and
    has a fractional part: no float with an integral value is left for a
    validator to flag. *)
Theorem fix_json_leaves_no_integral_float (x y : json) (p : path) (f : spec_float) :
  wf_json x = true ->
  __fix_json x = Returns y ->
  extras_free p = true ->
  json_at y p = Some (JFloat f) ->
  is_finite f = true /\ forall z, ~ integral f z.
Proof.
  intros Hwf Hfix Hfree Hat.
  destruct (fix_json_at_back p x y (JFloat f) Hwf Hfix Hfree Hat)
    as (v & _ & Hfv & _).
  now apply fix_json_float_result in Hfv.
Qed.

Lemma fix_json_leaves_no_integral_float_witness :
  is_finite five_and_half = true /\ forall z, ~ integral five_and_half z.
Proof.
  exact (fix_json_leaves_no_integral_float accessor accessor_fixed
           [Key "max"; Index 0] five_and_half eq_refl eq_refl eq_refl eq_refl).
Defined.

(** X6: once a pass has returned, a further pass cannot raise: the floats
    it would convert are all finite. *)
Theorem fix_json_second_pass_returns (x y : json) :
  wf_json x = true ->
  __fix_json x = Returns y ->
  exists z, __fix_json y = Returns z.
Proof.
  intros Hwf Hfix.
  destruct (__fix_json y) as [z|e] eqn:Hy; [eauto|].
  pose proof (fix_json_wf x y Hwf Hfix) as Hwfy.
  destruct (fix_json_raises_at y Hwfy e Hy) as (p & f & Hp & Hat & Hf).
  destruct (fix_json_at_back p x y (JFloat f) Hwf Hfix Hp Hat)
    as (v & _ & Hfv & _).
  apply fix_json_float_result in Hfv. destruct Hfv as (_ & Hfin & _).
  congruence.
Qed.

Lemma fix_json_second_pass_returns_witness :
  exists z, __fix_json (JDict [("a", JDict [])]) = Returns z.
Proof.
  exact (fix_json_second_pass_returns nested_null (JDict [("a", JDict [])])
           eq_refl eq_refl).
Defined.

(** ** The exceptions of the pass *)








(** ** Large doubles *)

Lemma digits2_pos_bound m : Z.pos m < 2 ^ Z.pos (digits2_pos m).
Proof.
  induction m as [m IH|m IH|]; simpl digits2_pos.
  - rewrite Pos2Z.inj_succ, Z.pow_succ_r by lia. lia.
  - rewrite Pos2Z.inj_succ, Z.pow_succ_r by lia. lia.
  - reflexivity.
Qed.

Lemma double_mantissa_bound s m e :
  is_double (S754_finite s m e) = true -> Z.pos m < 2 ^ 53.
Proof.
  unfold is_double, valid_binary, bounded, canonical_mantissa, fexp.
  intros H. apply andb_true_iff in H. destruct H as [H _].
  apply Z.eqb_eq in H.
  assert (Hd : Z.pos (digits2_pos m) <= 53) by lia.
  eapply Z.lt_le_trans; [apply digits2_pos_bound|].
  apply Z.pow_le_mono_r; lia.
Qed.

(** X8: a double whose integer part has magnitude at least 2^52 is always
    written as an integer: every such double is integral, so [1e300]
    becomes a 301-digit integer literal. *)
Theorem fix_json_large_double (f : spec_float) (i : Z) :
  is_double f = true ->
  int_of_float f = Returns i ->
  2 ^ 52 <= Z.abs i ->
  __fix_json (JFloat f) = Returns (JInt i).
Proof.
  intros Hd Hi Hbig.
  destruct f as [s|s| |s m e]; try discriminate.
  - simpl in Hi. injection Hi as <-. simpl in Hbig. lia.
  - pose proof (double_mantissa_bound s m e Hd) as Hm.
    simpl. simpl in Hi. injection Hi as Hi.
    destruct (Z.leb_spec 0 e) as [He|He].
    + subst i. simpl. now rewrite Z.eqb_refl.
    + exfalso.
      assert (Hp : 2 <= 2 ^ (- e)).
      { change 2 with (2 ^ 1) at 1. apply Z.pow_le_mono_r; lia. }
      assert (Hq : Z.pos m / 2 ^ (- e) < 2 ^ 52).
      { apply Z.div_lt_upper_bound; [lia|].
        change (2 ^ 53) with (2 * 2 ^ 52) in Hm. nia. }
      assert (0 <= Z.pos m / 2 ^ (- e)) by (apply Z.div_pos; lia).
      subst i. destruct s; simpl in Hbig; lia.
Qed.

Lemma fix_json_large_double_witness :
  __fix_json (JFloat two_pow_60) = Returns (JInt (2 ^ 60)).
Proof.
  apply (fix_json_large_double two_pow_60 (2 ^ 60)).
  - reflexivity.
  - reflexivity.
  - vm_compute. discriminate.
Defined.

(** ** Repeated passes *)

Lemma floats_settled_list_head a l :
  floats_settled (JList (a :: l)) -> floats_settled a.
Proof. intros H p f Hp Hat. apply (H (Index 0 :: p) f); assumption. Qed.

Lemma floats_settled_list_tail a l :
  floats_settled (JList (a :: l)) -> floats_settled (JList l).
Proof.
  intros H p f Hp Hat.
  destruct p as [|[k|i] p]; try discriminate.
  apply (H (Index (S i) :: p) f); assumption.
Qed.

Lemma floats_settled_dict_head k v d :
  String.eqb k "extras" = false ->
  floats_settled (JDict ((k, v) :: d)) -> floats_settled v.
Proof.
  intros Hk H p f Hp Hat. apply (H (Key k :: p) f).
  - simpl. now rewrite Hk.
  - simpl. now rewrite String.eqb_refl.
Qed.

Lemma floats_settled_dict_tail k v d :
  str_in k (keys d) = false ->
  floats_settled (JDict ((k, v) :: d)) -> floats_settled (JDict d).
Proof.
  intros Hk H p f Hp Hat. apply (H p f); [exact Hp|].
  destruct p as [|[k1|i] p]; simpl in *; try discriminate.
  destruct (dict_get d k1) eqn:E; [|discriminate].
  destruct (String.eqb_spec k k1) as [->|]; [|exact Hat].
  apply dict_get_in_keys in E. congruence.
Qed.

Lemma fix_json_floats_settled x y :
  wf_json x = true -> __fix_json x = Returns y -> floats_settled y.
Proof.
  intros Hwf Hfix p f Hp Hat.
  destruct (fix_json_at_back p x y (JFloat f) Hwf Hfix Hp Hat)
    as (v & _ & Hfv & _).
  destruct (fix_json_float_result v f Hfv) as (-> & _ & _). exact Hfv.
Qed.

Lemma shrinks_list l :
  Forall shrinks l ->
  forall r, forallb wf_json l = true -> floats_settled (JList l) ->
            fix_list_items __fix_json l [] = Returns r ->
            r = l \/ (list_sum (map size r) < list_sum (map size l))%nat.
Proof.
  induction 1 as [|a l Ha Hl IH]; intros r Hwf Hs Hr.
  - simpl in Hr. injection Hr as <-. now left.
  - rewrite fix_list_items_cons in Hr.
    apply bind_returns in Hr. destruct Hr as (w & Hw & Hr).
    apply bind_returns in Hr. destruct Hr as (r' & Hr' & [= <-]).
    simpl in Hwf. apply andb_true_iff in Hwf. destruct Hwf as [Hwa Hwl].
    destruct (Ha w Hwa (floats_settled_list_head _ _ Hs) Hw) as [->|Hlt];
      destruct (IH r' Hwl (floats_settled_list_tail _ _ Hs) Hr') as [->|Hlt'];
      simpl; [now left | right; lia | right; lia | right; lia].
Qed.

Lemma shrinks_dict d :
  Forall (fun kv => shrinks (snd kv)) d ->
  forall r, unique_keys (keys d) = true ->
            forallb (fun kv => wf_json (snd kv)) d = true ->
            floats_settled (JDict d) ->
            fix_dict_items __fix_json d [] = Returns r ->
            r = d \/ (list_sum (map (fun kv => S (size (snd kv))) r)
                      < list_sum (map (fun kv => S (size (snd kv))) d))%nat.
Proof.
  induction 1 as [|[k0 v0] d Ha Hd IH]; intros r Hu Hwf Hs Hr.
  - simpl in Hr. injection Hr as <-. now left.
  - rewrite fix_dict_items_cons in Hr by exact Hu.
    simpl in Hu. apply andb_true_iff in Hu. destruct Hu as [Hk0 Hu].
    apply negb_true_iff in Hk0.
    simpl in Hwf. apply andb_true_iff in Hwf. destruct Hwf as [Hwa Hwd].
    simpl in Ha.
    pose proof (floats_settled_dict_tail _ _ _ Hk0 Hs) as Hst.
    destruct (String.eqb k0 "extras" && negb (is_none v0)) eqn:Hx.
    + apply bind_returns in Hr. destruct Hr as (r' & Hr' & [= <-]).
      destruct (IH r' Hu Hwd Hst Hr') as [->|Hlt];
        simpl; [now left | right; lia].
    + destruct (__should_include_json_value k0 v0) eqn:Hi; simpl in Hr.
      * apply bind_returns in Hr. destruct Hr as (w & Hw & Hr).
        apply bind_returns in Hr. destruct Hr as (r' & Hr' & [= <-]).
        assert (Hk : String.eqb k0 "extras" = false).
        { unfold __should_include_json_value in Hi.
          destruct (is_none v0); [discriminate|].
          simpl in Hx. now rewrite andb_true_r in Hx. }
        destruct (Ha w Hwa (floats_settled_dict_head _ _ _ Hk Hs) Hw) as [->|Hlt];
          destruct (IH r' Hu Hwd Hst Hr') as [->|Hlt'];
          simpl; [now left | right; lia | right; lia | right; lia].
      * destruct (IH r Hu Hwd Hst Hr) as [->|Hlt]; right; simpl; lia.
Qed.

Lemma fix_json_shrinks y : shrinks y.
Proof.
  induction y as [| | |f| |l IH|d IH] using json_nested_ind;
    intros y' Hwf Hs Hy; try (simpl in Hy; injection Hy as <-; now left).
  - left. rewrite (Hs [] f eq_refl eq_refl) in Hy. now injection Hy as <-.
  - apply fix_json_list in Hy. destruct Hy as (r & Hr & ->).
    destruct (shrinks_list l IH r Hwf Hs Hr) as [->|Hlt];
      [now left | right; simpl; lia].
  - apply fix_json_dict in Hy. destruct Hy as (r & Hr & ->).
    simpl in Hwf. apply andb_true_iff in Hwf. destruct Hwf as [Hu Hwd].
    destruct (shrinks_dict d IH r Hu Hwd Hs Hr) as [->|Hlt];
      [now left | right; simpl; lia].
Qed.

Lemma fix_json_converges_within (m : nat) : forall x y,
  wf_json x = true -> __fix_json x = Returns y -> (size y <= m)%nat ->
  exists n z, (n <= size y)%nat /\ fix_json_times n y = Returns z
              /\ __fix_json z = Returns z.
Proof.
  induction m as [|m IH]; intros x y Hwf Hfix Hm.
  - destruct y; simpl in Hm; lia.
  - pose proof (fix_json_wf x y Hwf Hfix) as Hwfy.
    destruct (__fix_json y) as [y'|e] eqn:Hy.
    + destruct (fix_json_shrinks y y' Hwfy (fix_json_floats_settled x y Hwf Hfix) Hy)
        as [->|Hlt].
      * exists 0%nat, y. repeat split; [lia | exact Hy].
      * destruct (IH y y' Hwfy Hy) as (n & z & Hn & Hz & Hzz); [lia|].
        exists (S n), z. repeat split; [lia | | exact Hzz].
        simpl. now rewrite Hy.
    + exfalso.
      destruct (fix_json_raises_at y Hwfy e Hy) as (p & f & Hp & Hat & Hf).
      pose proof (fix_json_floats_settled x y Hwf Hfix p f Hp Hat) as Hs.
      apply fix_json_float_returns in Hs. congruence.
Qed.

(** X9: repeated passes settle.  After a first pass has returned [y], some
    number of further passes, at most the number of nodes of [y], returns a
    tree that [__fix_json] leaves unchanged; none of these passes raises. *)
Theorem fix_json_converges (x y : json) :
  wf_json x = true ->
  __fix_json x = Returns y ->
  exists n z, (n <= size y)%nat /\ fix_json_times n y = Returns z
              /\ __fix_json z = Returns z.
Proof.
  intros Hwf Hfix. apply (fix_json_converges_within (size y) x y); auto.
Qed.

Lemma fix_json_converges_witness :
  __fix_json nested_nulls = Returns (JDict [("a", JDict [("b", JDict [])]); ("n", JInt 5)])
  /\ fix_json_times 2 (JDict [("a", JDict [("b", JDict [])]); ("n", JInt 5)])
     = Returns (JDict [("n", JInt 5)])
  /\ exists n z,
       (n <= size (JDict [("a", JDict [("b", JDict [])]); ("n", JInt 5)]))%nat
       /\ fix_json_times n (JDict [("a", JDict [("b", JDict [])]); ("n", JInt 5)])
          = Returns z
       /\ __fix_json z = Returns z.
Proof.
  split; [reflexivity|]. split; [reflexivity|].
  exact (fix_json_converges nested_nulls _ eq_refl eq_refl).
Defined.

(** * Further properties of the export controller *)

Section GltfpackEdges.

Variable World : Type.
Variable Obj : Type.
Variable ext : collaborators World Obj.

(** X10: when the position-encoding option is none of the three names, no
    position flag is passed: the tool is still run, with every other
    argument in place. *)
Theorem gltfpack_without_position_flag (st st1 : host World) :
  let path := gltf_filepath (settings st) in
  let directory := path_join ext (path_dirname ext path) "gltfpacked" in
  let s := settings st1 in
  gltfpack_makedirs World Obj ext directory st = (st1, Returns tt) ->
  gltf_gltfpack_vpi s <> "Integer" ->
  gltf_gltfpack_vpi s <> "Normalized" ->
  gltf_gltfpack_vpi s <> "Floating-point" ->
  __postprocess_with_gltfpack World Obj ext st =
  gltfpack_run World Obj ext
    ([path_join ext (gltfpack_path_ui st) "gltfpack"]
     ++ flag_if (gltf_gltfpack_tc s) "-tc"
     ++ ["-tq"; format_value World Obj ext (gltf_gltfpack_tq s);
         "-si"; format_value World Obj ext (gltf_gltfpack_si s)]
     ++ flag_if (gltf_gltfpack_sa s) "-sa"
     ++ flag_if (gltf_gltfpack_slb s) "-slb"
     ++ ["-vp"; format_value World Obj ext (gltf_gltfpack_vp s);
         "-vt"; format_value World Obj ext (gltf_gltfpack_vt s);
         "-vn"; format_value World Obj ext (gltf_gltfpack_vn s);
         "-vc"; format_value World Obj ext (gltf_gltfpack_vc s)]
     ++ flag_if (gltf_gltfpack_noq s) "-noq"
     ++ ["-i"; path; "-o";
         path_join ext directory
           (fst (path_splitext ext (path_basename ext path))
            ++ snd (path_splitext ext (path_basename ext path)))%string])
    st1.
Proof.
  intros path directory s Hdir H1 H2 H3.
  apply String.eqb_neq in H1, H2, H3.
  unfold __postprocess_with_gltfpack.
  rewrite bind_run. unfold get at 1. rewrite bind_run. unfold read at 1.
  fold path. fold directory. rewrite bind_run, Hdir.
  rewrite bind_run. unfold read at 1. fold s.
  rewrite gltfpack_options_closed, H1, H2, H3.
  do 2 f_equal. rewrite <- !app_assoc. reflexivity.
Qed.

(** X11: the handler of the tool run does not cover the directory step.
    When the output directory is missing and [os.makedirs] raises, the
    exception leaves [__postprocess_with_gltfpack] whatever its class,
    with the host as [makedirs] left it: the tool is not run and nothing is
    logged. *)
Theorem gltfpack_makedirs_failure_propagates (st s1 s2 : host World) (e : exn) :
  let directory :=
    path_join ext (path_dirname ext (gltf_filepath (settings st))) "gltfpacked" in
  path_exists ext directory st = (s1, Returns false) ->
  makedirs ext directory s1 = (s2, Raises e) ->
  __postprocess_with_gltfpack World Obj ext st = (s2, Raises e).
Proof.
  intros directory Hex Hmk. unfold __postprocess_with_gltfpack.
  rewrite bind_run. unfold get at 1. rewrite bind_run. unfold read at 1.
  fold directory. rewrite bind_run. unfold gltfpack_makedirs.
  rewrite bind_run, Hex. cbv beta iota. change (negb false) with true.
  cbv iota. now rewrite Hmk.
Qed.

(** X12: once the file is written and the output directory is there, the
    exit status of the tool never fails the write: when the tool, launched
    with the arguments that [__postprocess_with_gltfpack] builds, exits with
    some status, [__write_file] returns, after one error line exactly when
    the status is not 0. *)
Theorem write_file_survives_exit_status
    (json : json) (buffer : bytes) (st st1 st2 st3 : host World) (code : Z) :
  let path := gltf_filepath (settings st1) in
  let directory := path_join ext (path_dirname ext path) "gltfpacked" in
  let argv :=
    [path_join ext (gltfpack_path_ui st1) "gltfpack"]
    ++ gltfpack_options World Obj ext (settings st2)
    ++ ["-i"; path; "-o";
        path_join ext directory
          (fst (path_splitext ext (path_basename ext path))
           ++ snd (path_splitext ext (path_basename ext path)))%string] in
  save_gltf ext json buffer st = (st1, Returns tt) ->
  gltf_use_gltfpack (settings st1) = true ->
  gltfpack_makedirs World Obj ext directory st1 = (st2, Returns tt) ->
  spawn ext argv st2 = (st3, Exited code) ->
  __write_file World Obj ext json buffer st =
  (with_console st3
     (if code =? 0 then []
      else [PrintConsole "ERROR" "Calling gltfpack was not successful"]),
   Returns tt).
Proof.
  intros path directory argv Hsave Huse Hdir Hspawn.
  assert (Hrun :
    gltfpack_run World Obj ext argv st2 =
    (with_console st3
       (if code =? 0 then []
        else [PrintConsole "ERROR" "Calling gltfpack was not successful"]),
     Returns tt)).
  { destruct (Z.eqb_spec code 0) as [->|Hne].
    - rewrite with_console_nil. apply gltfpack_zero_exit. exact Hspawn.
    - apply (gltfpack_nonzero_exit_logged World Obj ext argv st2 st3 code);
        auto. }
  unfold __write_file, try_except, write_attempt.
  rewrite bind_run, Hsave, bind_run. unfold read at 1. rewrite Huse.
  unfold __postprocess_with_gltfpack.
  rewrite bind_run. unfold get at 1. rewrite bind_run. unfold read at 1.
  fold path. fold directory.
  rewrite bind_run, Hdir. rewrite bind_run. unfold read at 1.
  fold argv. now rewrite Hrun.
Qed.

End GltfpackEdges.

Lemma gltfpack_without_position_flag_witness :
  let ext := Sample.collaborators_with Sample.no_hook Sample.write_ok
               (Sample.launch_exits 0) in
  let st := Sample.host_with Sample.settings_unknown_position in
  __postprocess_with_gltfpack unit nat ext st =
  gltfpack_run unit nat ext
    ["/opt/gltfpack/gltfpack"; "-tq"; "8"; "-si"; "1.5";
     "-vp"; "14"; "-vt"; "12"; "-vn"; "8"; "-vc"; "8"; "-noq";
     "-i"; "/tmp/out/scene.gltf"; "-o"; "/tmp/out/gltfpacked/scene.gltf"] st.
Proof.
  intros ext st.
  apply (gltfpack_without_position_flag unit nat ext st st);
    [reflexivity | discriminate | discriminate | discriminate].
Defined.

Lemma gltfpack_makedirs_failure_propagates_witness :
  let st := Sample.host_with (Sample.settings_with true true "GLB") in
  __postprocess_with_gltfpack unit nat Sample.collaborators_read_only st
  = (st, Raises Sample.read_only).
Proof.
  intros st.
  apply (gltfpack_makedirs_failure_propagates unit nat
           Sample.collaborators_read_only st st st Sample.read_only);
    reflexivity.
Defined.

Lemma write_file_survives_exit_status_witness :
  let ext := Sample.collaborators_with Sample.no_hook Sample.write_ok
               (Sample.launch_only
                  ["/opt/gltfpack/gltfpack"; "-tc"; "-tq"; "8"; "-si"; "1.5";
                   "-slb"; "-vp"; "14"; "-vt"; "12"; "-vn"; "8"; "-vc"; "8";
                   "-vpn"; "-i"; "/tmp/out/scene.glb";
                   "-o"; "/tmp/out/gltfpacked/scene.glb"] 3) in
  let st := Sample.host_with (Sample.settings_with true true "GLB") in
  __write_file unit nat ext Sample.document [] st =
  (with_console st [PrintConsole "ERROR" "Calling gltfpack was not successful"],
   Returns tt).
Proof.
  intros ext st.
  apply (write_file_survives_exit_status unit nat ext Sample.document []
           st st st st 3); reflexivity.
Defined.

(** ** A returning export *)

Section Returning.

Variable World : Type.
Variable Obj : Type.
Variable ext : collaborators World Obj.

Lemma notify_end_run elapsed (st : host World) :
  __notify_end World Obj ext elapsed st =
  (with_console st
     [PrintConsole "INFO"
        ("Finished glTF 2.0 export in " ++ repr_float ext elapsed ++ " s");
      ProgressEnd; PrintNewline], Returns tt).
Proof.
  unfold __notify_end, print_console, progress_end, print_newline.
  rewrite bind_run, emit_run, bind_run, emit_run, emit_run.
  now rewrite !with_console_app.
Qed.

(** X13: whenever [save] returns, it returns [{'FINISHED'}] and the last
    things on the console are the end notification: the elapsed-time line,
    the end of the progress report and a newline.  Nothing is printed after
    them. *)
Theorem save_returns_finished (st st' : host World) (r : list string) :
  save World Obj ext st = (st', Returns r) ->
  r = ["FINISHED"]
  /\ exists before elapsed,
       console st' =
       before
       ++ [PrintConsole "INFO"
             ("Finished glTF 2.0 export in " ++ repr_float ext elapsed ++ " s");
           ProgressEnd; PrintNewline].
Proof.
  intros H. unfold save in H.
  do 9 (apply bind_returned in H; destruct H as (? & ? & _ & H)).
  match type of H with (match ?x with _ => _ end) _ = _ => destruct x end.
  do 4 (apply bind_returned in H; destruct H as (? & ? & _ & H)).
  apply bind_returned in H. destruct H as (s & [] & Hend & H).
  rewrite notify_end_run in Hend. injection Hend as <-.
  rewrite bind_run in H. unfold read at 1 in H.
  match type of H with context [negb ?b] => destruct b end;
    simpl in H; injection H as <- <-; split; try reflexivity; simpl; eauto.
Qed.

End Returning.

Lemma save_returns_finished_witness :
  let ext := Sample.collaborators_with Sample.no_hook Sample.write_ok
               (Sample.launch_exits 1) in
  let st := Sample.host_with (Sample.settings_with false true "GLB") in
  snd (save unit nat ext st) = Returns ["FINISHED"]
  /\ exists before elapsed,
       console (fst (save unit nat ext st)) =
       before
       ++ [PrintConsole "INFO"
             ("Finished glTF 2.0 export in " ++ repr_float ext elapsed ++ " s");
           ProgressEnd; PrintNewline].
Proof.
  intros ext st. split; [reflexivity|].
  exact (proj2 (save_returns_finished unit nat ext st
                  (fst (save unit nat ext st)) ["FINISHED"] eq_refl)).
Defined.

(** ** The active scene *)

Lemma active_flags_count_from {A} (a : Z) (scenes : list A) (start : nat) :
  count_occ Bool.bool_dec (active_flags a (enumerate_from start scenes)) true =
  if (Z.of_nat start <=? a) && (a <? Z.of_nat start + Z.of_nat (List.length scenes))
  then 1%nat else 0%nat.
Proof.
  revert start. induction scenes as [|x scenes IH]; intros start.
  - simpl. destruct (Z.leb_spec (Z.of_nat start) a), (Z.ltb_spec a (Z.of_nat start + 0));
      simpl; try reflexivity; lia.
  - simpl enumerate_from. simpl active_flags. fold (active_flags a (enumerate_from (S start) scenes)).
    simpl count_occ. rewrite IH.
    destruct (Z.eqb_spec (Z.of_nat start) a) as [Heq|Hne];
      destruct (Bool.bool_dec _ true) as [Ht|Hf]; try congruence;
      destruct (Z.leb_spec (Z.of_nat (S start)) a),
               (Z.ltb_spec a (Z.of_nat (S start) + Z.of_nat (List.length scenes))),
               (Z.leb_spec (Z.of_nat start) a),
               (Z.ltb_spec a (Z.of_nat start + Z.of_nat (List.length (x :: scenes))));
      simpl List.length in *; simpl; try reflexivity; lia.
Qed.

Lemma flagged_scenes {A} (a : Z) (scenes : list A) : forall start,
  map fst (flagged a (enumerate_from start scenes)) = scenes.
Proof.
  induction scenes as [|x scenes IH]; intros start; simpl; [reflexivity|].
  f_equal. apply IH.
Qed.

Lemma flagged_flags {A} (a : Z) (l : list (nat * A)) :
  map snd (flagged a l) = active_flags a l.
Proof.
  unfold flagged, active_flags. rewrite map_map.
  apply map_ext. now intros [idx x].
Qed.

Lemma flagged_nth {A} (a : Z) (scenes : list A) : forall start i scene flag,
  nth_error (flagged a (enumerate_from start scenes)) i = Some (scene, flag) ->
  flag = (Z.of_nat (start + i) =? a).
Proof.
  induction scenes as [|x scenes IH]; intros start i scene flag H.
  - destruct i; discriminate.
  - destruct i as [|i]; simpl in H.
    + injection H as _ <-. now rewrite Nat.add_0_r.
    + apply IH in H. now rewrite Nat.add_succ_r.
Qed.

Section ActiveScene.

Variable World : Type.
Variable Obj : Type.
Variable ext : collaborators World Obj.
Variable added : host World -> list (Obj * bool).
Hypothesis log : scene_log ext added.

Lemma scene_loop_log (exporter : Obj) (a : Z) (scenes : list Obj) :
  forall start st st',
    for_each World (enumerate_from start scenes)
      (fun '(idx, scene) => add_scene ext exporter scene (Z.of_nat idx =? a)) st
    = (st', Returns tt) ->
    added st' = added st ++ flagged a (enumerate_from start scenes).
Proof.
  induction scenes as [|x scenes IH]; intros start st st' H.
  - injection H as <-. now rewrite app_nil_r.
  - simpl in H. apply bind_returned in H. destruct H as (s & [] & Hadd & H).
    apply IH in H. rewrite H, (sl_add_scene _ _ _ _ log _ _ _ _ _ Hadd).
    now rewrite <- app_assoc.
Qed.

Lemma animation_loop_log (exporter : Obj) (animations : list Obj) :
  forall st st',
    for_each World animations (fun animation => add_animation ext exporter animation) st
    = (st', Returns tt) ->
    added st' = added st.
Proof.
  induction animations as [|x animations IH]; intros st st' H.
  - now injection H as <-.
  - simpl in H. apply bind_returned in H. destruct H as (s & [] & Hadd & H).
    apply IH in H. now rewrite H, (sl_add_animation _ _ _ _ log _ _ _ _ Hadd).
Qed.

Lemma gather_gltf_log (exporter : Obj) (a : Z) (scenes animations : list Obj)
    (st s1 st' : host World) :
  gather_gltf2 ext st = (s1, Returns (a, scenes, animations)) ->
  __gather_gltf World Obj ext exporter st = (st', Returns tt) ->
  added st' = added s1 ++ flagged a (enumerate scenes).
Proof.
  intros Hg H. unfold __gather_gltf in H.
  apply bind_returned in H. destruct H as (s1' & x & Hg' & H).
  rewrite Hg in Hg'. injection Hg' as <- <-.
  apply bind_returned in H. destruct H as (s2 & skins & Hskins & H).
  apply bind_returned in H. destruct H as (s3 & draco & Hread & H).
  unfold read in Hread. injection Hread as <- <-.
  apply bind_returned in H. destruct H as (s4 & [] & Hdraco & H).
  apply bind_returned in H. destruct H as (s5 & [] & Hhook & H).
  apply bind_returned in H. destruct H as (s6 & [] & Hscenes & H).
  apply bind_returned in H. destruct H as (s7 & [] & Hanim & H).
  rewrite (sl_traverse_unused_skins _ _ _ _ log _ _ _ _ H).
  rewrite (animation_loop_log _ _ _ _ Hanim).
  rewrite (scene_loop_log _ _ _ _ _ _ Hscenes).
  rewrite (sl_export_user_extensions _ _ _ _ log _ _ _ _ Hhook).
  f_equal.
  rewrite <- (sl_get_unused_skins _ _ _ _ log _ _ _ Hskins).
  destruct (gltf_draco_mesh_compression (settings s2)).
  - apply bind_returned in Hdraco. destruct Hdraco as (s & [] & Henc & Hext).
    rewrite (sl_add_draco_extension _ _ _ _ log _ _ _ Hext).
    apply (sl_encode_scene_primitives _ _ _ _ log _ _ _ Henc).
  - now injection Hdraco as <-.
Qed.

End ActiveScene.

(** X14: when neither the Draco encoder nor the gather hook edits the scene
    list, a returning [__gather_gltf] adds to the exporter the scenes that
    the gatherer found, in order and nothing else, each flagged active
    exactly when its position is the active scene index: so one scene is
    flagged when the index is a position of the list, and none when it is
    not (a negative index, or one past the end). *)
Theorem gather_flags_one_active_scene {World Obj : Type}
    (ext : collaborators World Obj) (added : host World -> list (Obj * bool))
    (exporter : Obj) (active_scene_idx : Z) (scenes animations : list Obj)
    (st s1 st' : host World) :
  scene_log ext added ->
  gather_gltf2 ext st = (s1, Returns (active_scene_idx, scenes, animations)) ->
  __gather_gltf World Obj ext exporter st = (st', Returns tt) ->
  exists new,
    added st' = added s1 ++ new
    /\ map fst new = scenes
    /\ (forall i scene flag,
          nth_error new i = Some (scene, flag) ->
          flag = (Z.of_nat i =? active_scene_idx))
    /\ count_occ Bool.bool_dec (map snd new) true =
       (if (0 <=? active_scene_idx)
           && (active_scene_idx <? Z.of_nat (List.length scenes))
        then 1%nat else 0%nat).
Proof.
  intros Hlog Hg H.
  exists (flagged active_scene_idx (enumerate scenes)).
  split; [|split; [|split]].
  - exact (gather_gltf_log World Obj ext added Hlog exporter _ _ _ _ _ _ Hg H).
  - apply flagged_scenes.
  - intros i scene flag Hn. apply flagged_nth in Hn. exact Hn.
  - rewrite flagged_flags. unfold enumerate.
    rewrite active_flags_count_from. reflexivity.
Qed.

Lemma recording_scene_log : scene_log Sample.recording world.
Proof.
  constructor; intros; try (match goal with H : _ = _ |- _ => now injection H as <- end).
Qed.

Lemma gather_flags_one_active_scene_witness :
  __gather_gltf (list (nat * bool)) nat Sample.recording 0%nat Sample.recording_host
  = ({| active_object_mode := Some "OBJECT";
        frame_current := 7;
        gltfpack_path_ui := "/opt/gltfpack";
        settings := Sample.settings_with true false "GLB";
        console := [];
        world := [(10%nat, false); (11%nat, true); (12%nat, false)] |}, Returns tt)
  /\ exists new,
       [(10%nat, false); (11%nat, true); (12%nat, false)] = [] ++ new
       /\ map fst new = [10%nat; 11%nat; 12%nat]
       /\ (forall i scene flag,
             nth_error new i = Some (scene, flag) -> flag = (Z.of_nat i =? 1))
       /\ count_occ Bool.bool_dec (map snd new) true = 1%nat.
Proof.
  split; [reflexivity|].
  exact (gather_flags_one_active_scene Sample.recording world 0%nat 1
           [10%nat; 11%nat; 12%nat] [20%nat]
           Sample.recording_host Sample.recording_host _
           recording_scene_log eq_refl eq_refl).
Defined.

(** ** The document that leaves [__export] *)

(** X15: whatever JSON [__export] returns is the result of [__fix_json] on
    the dict of the exporter's own document: the exporter is the one made at
    the start of the run, its [glTF] is read again after the extensions are
    traversed, [to_dict()] is called on that object in the state that read
    left, and nothing touches the host between the conversion and the
    return.  The buffer is the one [__create_buffer] returned for the same
    exporter.  No raw document reaches the writer. *)
Theorem export_returns_cleaned_document {World Obj : Type}
    (ext : collaborators World Obj) (st st' : host World)
    (json : json) (buffer : bytes) :
  __export World Obj ext st = (st', Returns (json, buffer)) ->
  exists exporter s1 s2 s3 s4 first s5 s6 s7 gltf s8 raw,
    new_exporter ext st = (s1, Returns exporter)
    /\ __gather_gltf World Obj ext exporter s1 = (s2, Returns tt)
    /\ __create_buffer World Obj ext exporter s2 = (s3, Returns buffer)
    /\ finalize_images ext exporter s3 = (s4, Returns tt)
    /\ exporter_glTF ext exporter s4 = (s5, Returns first)
    /\ export_user_extensions ext "gather_gltf_extensions_hook" (GltfArgs first) s5
       = (s6, Returns tt)
    /\ traverse_extensions ext exporter s6 = (s7, Returns tt)
    /\ exporter_glTF ext exporter s7 = (s8, Returns gltf)
    /\ to_dict ext gltf s8 = (st', Returns raw)
    /\ __fix_json raw = Returns json.
Proof.
  intros H. unfold __export in H.
  apply bind_returned in H. destruct H as (s1 & exporter & H1 & H).
  apply bind_returned in H. destruct H as (s2 & [] & H2 & H).
  apply bind_returned in H. destruct H as (s3 & buffer' & H3 & H).
  apply bind_returned in H. destruct H as (s4 & [] & H4 & H).
  apply bind_returned in H. destruct H as (s5 & first & H5 & H).
  apply bind_returned in H. destruct H as (s6 & [] & H6 & H).
  apply bind_returned in H. destruct H as (s7 & [] & H7 & H).
  apply bind_returned in H. destruct H as (s8 & gltf & H8 & H).
  apply bind_returned in H. destruct H as (s9 & raw & H9 & H).
  apply bind_returned in H. destruct H as (s10 & j & Hj & H).
  unfold lift in Hj. unfold ret in H.
  injection Hj as <- Hj. injection H as <- <- <-.
  exists exporter, s1, s2, s3, s4, first, s5, s6, s7, gltf, s8, raw.
  repeat split; assumption.
Qed.

Lemma export_returns_cleaned_document_witness :
  let ext := Sample.collaborators_with Sample.no_hook Sample.write_ok
               (Sample.launch_exits 0) in
  let st := Sample.host_with (Sample.settings_with true false "GLB") in
  let json := JDict [("asset", JDict [("version", JStr "2.0")]); ("scene", JInt 0)] in
  let buffer := [x67; x6c; x54; x46] in
  __export unit nat ext st = (st, Returns (json, buffer))
  /\ exists exporter s1 s2 s3 s4 first s5 s6 s7 gltf s8 raw,
       new_exporter ext st = (s1, Returns exporter)
       /\ __gather_gltf unit nat ext exporter s1 = (s2, Returns tt)
       /\ __create_buffer unit nat ext exporter s2 = (s3, Returns buffer)
       /\ finalize_images ext exporter s3 = (s4, Returns tt)
       /\ exporter_glTF ext exporter s4 = (s5, Returns first)
       /\ export_user_extensions ext "gather_gltf_extensions_hook" (GltfArgs first) s5
          = (s6, Returns tt)
       /\ traverse_extensions ext exporter s6 = (s7, Returns tt)
       /\ exporter_glTF ext exporter s7 = (s8, Returns gltf)
       /\ to_dict ext gltf s8 = (st, Returns raw)
       /\ __fix_json raw = Returns json.
Proof.
  intros ext st json buffer. split; [reflexivity|].
  exact (export_returns_cleaned_document ext st st json buffer eq_refl).
Defined.
